(** * Tool-requirement demo: line-framed JSON-RPC client and OAuth-scoped tools

    A shallow embedding of
    - [src/examples/demo_requirements.ts]: the [ServerHandler] class
      (line framing of the peer's stdout, routing of parsed frames to
      registered handlers, promise-based waiting with a timer) and the
      recursive pretty-printer [display.requirement];
    - [src/examples/server/toolWithOAuthServer.ts]: the scope-gated tool
      callbacks over the module variable [currentScopes].

    Conventions.  A JavaScript string is modelled by its sequence of Unicode
    code points (a [list N]); a [Buffer] by its sequence of bytes (a [list N]
    of values below 256).  [String.prototype.split], [trim], [slice],
    [includes] and [join] agree on both views for the strings met here.  A
    JSON number is an exact decimal [m / 10^e]; IEEE rounding and range are
    not modelled. *)

From stdpp Require Import gmap strings list fin_maps.
From Stdlib Require Import ZArith NArith Ascii String List Lia.
From Stdlib Require Decimal DecimalPos.

#[global] Set Warnings "-register-all".

Local Open Scope N_scope.

Abbreviation jsstring := (list N) (only parsing).
Abbreviation Buffer := (list N) (only parsing).

(** ** Runtime library: UTF-8 *)

Module Utf8.

(** State of the decoder between two bytes: the code point being
    assembled, the number of continuation bytes still expected and the
    range the next continuation byte must lie in. *)
Record state := State { cp : N; need : nat; lo : N; hi : N }.

Definition init : state := State 0 0%nat 0x80 0xBF.

Definition between (l h b : N) : bool := (l <=? b) && (b <=? h).

(** A byte met when no sequence is open. *)
Definition lead (b : N) : list N * state :=
  if b <=? 0x7F then ([b], init)
  else if between 0xC2 0xDF b then
    ([], State (N.land b 0x1F) 1 0x80 0xBF)
  else if between 0xE0 0xEF b then
    ([], State (N.land b 0x0F) 2
               (if b =? 0xE0 then 0xA0 else 0x80)
               (if b =? 0xED then 0x9F else 0xBF))
  else if between 0xF0 0xF4 b then
    ([], State (N.land b 0x07) 3
               (if b =? 0xF0 then 0x90 else 0x80)
               (if b =? 0xF4 then 0x8F else 0xBF))
  else ([0xFFFD], init).

(** One byte: a continuation byte in range extends the open sequence; any
    other byte closes it with U+FFFD and is looked at again as a lead. *)
Definition step (st : state) (b : N) : list N * state :=
  match need st with
  | O => lead b
  | S r =>
      if between (lo st) (hi st) b then
        let c := N.lor (N.shiftl (cp st) 6) (N.land b 0x3F) in
        match r with
        | O => ([c], init)
        | S _ => ([], State c r 0x80 0xBF)
        end
      else
        let '(out, st') := lead b in (0xFFFD :: out, st')
  end.

Fixpoint run (st : state) (bs : Buffer) : jsstring :=
  match bs with
  | [] => match need st with O => [] | S _ => [0xFFFD] end
  | b :: bs' => let '(out, st') := step st b in out ++ run st' bs'
  end.

(** [buf.toString()]: UTF-8 decoding of the whole buffer, each ill-formed
    or truncated sequence replaced by U+FFFD. *)
Definition decode (bs : Buffer) : jsstring := run init bs.

(** The bytes of one code point, as [stream.write(string)] emits them;
    a lone surrogate or an out-of-range value is written as U+FFFD. *)
Definition encode1 (c : N) : Buffer :=
  if c <=? 0x7F then [c]
  else if c <=? 0x7FF then
    [N.lor 0xC0 (N.shiftr c 6); N.lor 0x80 (N.land c 0x3F)]
  else if between 0xD800 0xDFFF c || (0x10FFFF <? c) then [0xEF; 0xBF; 0xBD]
  else if c <=? 0xFFFF then
    [N.lor 0xE0 (N.shiftr c 12);
     N.lor 0x80 (N.land (N.shiftr c 6) 0x3F);
     N.lor 0x80 (N.land c 0x3F)]
  else
    [N.lor 0xF0 (N.shiftr c 18);
     N.lor 0x80 (N.land (N.shiftr c 12) 0x3F);
     N.lor 0x80 (N.land (N.shiftr c 6) 0x3F);
     N.lor 0x80 (N.land c 0x3F)].

Definition encode (s : jsstring) : Buffer := concat (map encode1 s).

(** The code points a well-formed string is made of: Unicode scalar
    values. *)
Definition valid (c : N) : bool := (c <? 0x110000) && negb (between 0xD800 0xDFFF c).

End Utf8.

(** A string literal of this file, read as UTF-8 source text. *)
Definition js (s : string) : jsstring :=
  Utf8.decode (map N_of_ascii (list_ascii_of_string s)).

#[global] Arguments js : simpl never.

(** ** Runtime library: strings *)

Module Str.

(** [s.split(sep)] for a one-character separator: the pieces between the
    separators, so one more piece than there are separators. *)
Fixpoint split (sep : N) (s : jsstring) : list jsstring :=
  match s with
  | [] => [[]]
  | c :: s' =>
      if c =? sep then [] :: split sep s'
      else match split sep s' with
           | l :: ls => (c :: l) :: ls
           | [] => [[c]]
           end
  end.

(** WhiteSpace and LineTerminator code points, the ones [trim] strips. *)
Definition is_space (c : N) : bool :=
  (c =? 0x09) || (c =? 0x0A) || (c =? 0x0B) || (c =? 0x0C) || (c =? 0x0D)
  || (c =? 0x20) || (c =? 0xA0) || (c =? 0x1680)
  || ((0x2000 <=? c) && (c <=? 0x200A))
  || (c =? 0x2028) || (c =? 0x2029) || (c =? 0x202F) || (c =? 0x205F)
  || (c =? 0x3000) || (c =? 0xFEFF).

Fixpoint trimStart (s : jsstring) : jsstring :=
  match s with
  | [] => []
  | c :: s' => if is_space c then trimStart s' else s
  end.

Definition trim (s : jsstring) : jsstring :=
  rev (trimStart (rev (trimStart s))).

(** Truthiness of a string: non-empty. *)
Definition truthy (s : jsstring) : bool :=
  match s with [] => false | _ => true end.

(** [s.slice(0, -k)], counted in code points; the strings the source
    passes to it are indents made of spaces. *)
Definition slice_to_end_minus (k : nat) (s : jsstring) : jsstring :=
  firstn (length s - k)%nat s.

(** [xs.join(sep)]. *)
Fixpoint join (sep : jsstring) (xs : list jsstring) : jsstring :=
  match xs with
  | [] => []
  | [x] => x
  | x :: xs' => x ++ sep ++ join sep xs'
  end.

(** [xs.includes(x)] on an array of strings. *)
Definition includes (xs : list jsstring) (x : jsstring) : bool :=
  existsb (fun y => bool_decide (y = x)) xs.

End Str.

(** ** Runtime library: JSON values, [JSON.stringify], [JSON.parse] *)

Module Json.

(** The number [m / 10^e]. *)
Inductive number := Num (m : Z) (e : N).

Inductive JSON :=
| JNull
| JBool (b : bool)
| JNum (n : number)
| JStr (s : jsstring)
| JArr (xs : list JSON)
| JObj (fields : list (jsstring * JSON)).

Definition int (z : Z) : number := Num z 0.

#[global] Instance number_eq_dec : EqDecision number.
Proof. solve_decision. Defined.

(** Induction over JSON values, elements and members included. *)
Fixpoint JSON_nested_ind (P : JSON -> Prop)
    (Hnull : P JNull)
    (Hbool : forall b, P (JBool b))
    (Hnum : forall n, P (JNum n))
    (Hstr : forall s, P (JStr s))
    (Harr : forall xs, Forall P xs -> P (JArr xs))
    (Hobj : forall fields, Forall (fun kv => P (snd kv)) fields -> P (JObj fields))
    (v : JSON) {struct v} : P v :=
  let go := JSON_nested_ind P Hnull Hbool Hnum Hstr Harr Hobj in
  match v with
  | JNull => Hnull
  | JBool b => Hbool b
  | JNum n => Hnum n
  | JStr s => Hstr s
  | JArr xs =>
      Harr xs ((fix all (l : list JSON) : Forall P l :=
                  match l with
                  | [] => Forall_nil P
                  | x :: l' => Forall_cons P x l' (go x) (all l')
                  end) xs)
  | JObj fields =>
      Hobj fields ((fix all (l : list (jsstring * JSON)) : Forall (fun kv => P (snd kv)) l :=
                      match l with
                      | [] => Forall_nil _
                      | x :: l' => Forall_cons _ x l' (go (snd x)) (all l')
                      end) fields)
  end.

(** *** Printing *)

Fixpoint uint_chars (u : Decimal.uint) : jsstring :=
  match u with
  | Decimal.Nil => []
  | Decimal.D0 u => 48 :: uint_chars u
  | Decimal.D1 u => 49 :: uint_chars u
  | Decimal.D2 u => 50 :: uint_chars u
  | Decimal.D3 u => 51 :: uint_chars u
  | Decimal.D4 u => 52 :: uint_chars u
  | Decimal.D5 u => 53 :: uint_chars u
  | Decimal.D6 u => 54 :: uint_chars u
  | Decimal.D7 u => 55 :: uint_chars u
  | Decimal.D8 u => 56 :: uint_chars u
  | Decimal.D9 u => 57 :: uint_chars u
  end.

Definition digits (n : N) : jsstring := uint_chars (N.to_uint n).

(** [String(n)]: plain decimal notation (the exponent notation that
    JavaScript switches to for very large or very small magnitudes is not
    modelled). *)
Definition number_to_string (n : number) : jsstring :=
  let '(Num m e) := n in
  let sign := if (m <? 0)%Z then [45] else [] in
  let ds := digits (Z.abs_N m) in
  if e =? 0 then sign ++ ds
  else
    let k := N.to_nat e in
    let ds' := repeat 48 (S k - length ds)%nat ++ ds in
    sign ++ firstn (length ds' - k)%nat ds' ++ [46] ++ skipn (length ds' - k)%nat ds'.

Definition hex_digit (d : N) : N := if d <? 10 then 48 + d else 87 + d.

Definition hex4 (c : N) : jsstring :=
  [hex_digit (N.land (N.shiftr c 12) 0xF); hex_digit (N.land (N.shiftr c 8) 0xF);
   hex_digit (N.land (N.shiftr c 4) 0xF); hex_digit (N.land c 0xF)].

(** One character of a quoted string (QuoteJSONString). *)
Definition quote_char (c : N) : jsstring :=
  if c =? 0x22 then [0x5C; 0x22]
  else if c =? 0x5C then [0x5C; 0x5C]
  else if c =? 0x08 then [0x5C; 0x62]
  else if c =? 0x0C then [0x5C; 0x66]
  else if c =? 0x0A then [0x5C; 0x6E]
  else if c =? 0x0D then [0x5C; 0x72]
  else if c =? 0x09 then [0x5C; 0x74]
  else if (c <? 0x20) || Utf8.between 0xD800 0xDFFF c then [0x5C; 0x75] ++ hex4 c
  else [c].

Definition quote (s : jsstring) : jsstring :=
  [0x22] ++ concat (map quote_char s) ++ [0x22].

(** [JSON.stringify(v)] with no indent argument. *)
Fixpoint stringify (v : JSON) : jsstring :=
  match v with
  | JNull => js "null"
  | JBool true => js "true"
  | JBool false => js "false"
  | JNum n => number_to_string n
  | JStr s => quote s
  | JArr xs => [0x5B] ++ Str.join [0x2C] (map stringify xs) ++ [0x5D]
  | JObj fields =>
      [0x7B] ++
      Str.join [0x2C] (map (fun kv => quote (fst kv) ++ [0x3A] ++ stringify (snd kv)) fields)
      ++ [0x7D]
  end.

(** *** Parsing *)

Definition is_ws (c : N) : bool :=
  (c =? 0x20) || (c =? 0x09) || (c =? 0x0A) || (c =? 0x0D).

Fixpoint skip_ws (s : jsstring) : jsstring :=
  match s with
  | c :: s' => if is_ws c then skip_ws s' else s
  | [] => []
  end.

Definition digit_val (c : N) : option N :=
  if Utf8.between 48 57 c then Some (c - 48) else None.

Definition hex_val (c : N) : option N :=
  if Utf8.between 48 57 c then Some (c - 48)
  else if Utf8.between 97 102 c then Some (c - 87)
  else if Utf8.between 65 70 c then Some (c - 55)
  else None.

Definition simple_escape (c : N) : option N :=
  if c =? 0x22 then Some 0x22
  else if c =? 0x5C then Some 0x5C
  else if c =? 0x2F then Some 0x2F
  else if c =? 0x62 then Some 0x08
  else if c =? 0x66 then Some 0x0C
  else if c =? 0x6E then Some 0x0A
  else if c =? 0x72 then Some 0x0D
  else if c =? 0x74 then Some 0x09
  else None.

Definition push (c : N) (r : option (jsstring * jsstring)) : option (jsstring * jsstring) :=
  match r with
  | Some (str, rest) => Some (c :: str, rest)
  | None => None
  end.

(** The characters of a string literal after its opening quote, escapes
    decoded, up to the closing quote; also the text after it. *)
Fixpoint parse_chars (s : jsstring) : option (jsstring * jsstring) :=
  match s with
  | [] => None
  | c :: r =>
      if c =? 0x22 then Some ([], r)
      else if c =? 0x5C then
        match r with
        | [] => None
        | x :: r1 =>
            if x =? 0x75 then
              match r1 with
              | h3 :: h2 :: h1 :: h0 :: r2 =>
                  match hex_val h3, hex_val h2, hex_val h1, hex_val h0 with
                  | Some a3, Some a2, Some a1, Some a0 =>
                      push (a3 * 4096 + a2 * 256 + a1 * 16 + a0) (parse_chars r2)
                  | _, _, _, _ => None
                  end
              | _ => None
              end
            else
              match simple_escape x with
              | Some y => push y (parse_chars r1)
              | None => None
              end
        end
      else if c <? 0x20 then None
      else push c (parse_chars r)
  end.

(** A high surrogate followed by a low one is one code point. *)
Fixpoint combine_surrogates (s : jsstring) : jsstring :=
  match s with
  | [] => []
  | h :: s' =>
      match s' with
      | l :: s'' =>
          if Utf8.between 0xD800 0xDBFF h && Utf8.between 0xDC00 0xDFFF l
          then (0x10000 + (h - 0xD800) * 0x400 + (l - 0xDC00)) :: combine_surrogates s''
          else h :: combine_surrogates s'
      | [] => [h]
      end
  end.

Definition parse_string (s : jsstring) : option (jsstring * jsstring) :=
  match parse_chars s with
  | Some (str, rest) => Some (combine_surrogates str, rest)
  | None => None
  end.

Fixpoint take_digits (s : jsstring) : list N * jsstring :=
  match s with
  | c :: s' =>
      match digit_val c with
      | Some d => let '(ds, rest) := take_digits s' in (d :: ds, rest)
      | None => ([], s)
      end
  | [] => ([], [])
  end.

Definition digits_value (ds : list N) : N :=
  fold_left (fun acc d => 10 * acc + d) ds 0.

(** Trailing zeros of the mantissa are traded against the scale. *)
Fixpoint strip_zeros (fuel : nat) (m : Z) (e : N) : number :=
  match fuel with
  | O => Num m e
  | S f =>
      if e =? 0 then Num m 0
      else if (m mod 10 =? 0)%Z then strip_zeros f (m / 10)%Z (e - 1)
      else Num m e
  end.

(** [sign * mant * 10^k] in normal form: scale 0 exactly for integers. *)
Definition normalize (neg : bool) (mant : N) (ndigits : nat) (k : Z) : number :=
  let m := if neg then (- Z.of_N mant)%Z else Z.of_N mant in
  if mant =? 0 then Num 0 0
  else if (0 <=? k)%Z then Num (m * 10 ^ k)%Z 0
  else strip_zeros ndigits m (Z.to_N (- k)).

(** The integer part: a single 0, or a non-zero digit and more digits. *)
Definition take_int (s : jsstring) : option (list N * jsstring) :=
  match s with
  | c :: s' =>
      if c =? 48 then Some ([0], s')
      else match take_digits s with
           | ([], _) => None
           | r => Some r
           end
  | [] => None
  end.

Definition take_frac (s : jsstring) : option (list N * jsstring) :=
  match s with
  | c :: s' =>
      if c =? 46 then
        match take_digits s' with
        | ([], _) => None
        | r => Some r
        end
      else Some ([], s)
  | [] => Some ([], [])
  end.

Definition take_exp (s : jsstring) : option (Z * jsstring) :=
  match s with
  | c :: s' =>
      if (c =? 101) || (c =? 69) then
        let '(neg, s'') :=
          match s' with
          | x :: t => if x =? 45 then (true, t) else if x =? 43 then (false, t) else (false, s')
          | [] => (false, s')
          end in
        match take_digits s'' with
        | ([], _) => None
        | (ds, rest) =>
            let v := Z.of_N (digits_value ds) in
            Some (if neg then (- v)%Z else v, rest)
        end
      else Some (0%Z, s)
  | [] => Some (0%Z, [])
  end.

Definition parse_number (s : jsstring) : option (number * jsstring) :=
  let '(neg, s1) :=
    match s with
    | c :: t => if c =? 45 then (true, t) else (false, s)
    | [] => (false, s)
    end in
  match take_int s1 with
  | None => None
  | Some (ip, s2) =>
      match take_frac s2 with
      | None => None
      | Some (fp, s3) =>
          match take_exp s3 with
          | None => None
          | Some (ex, s4) =>
              let ds := ip ++ fp in
              Some (normalize neg (digits_value ds) (length ds)
                              (ex - Z.of_nat (length fp))%Z, s4)
          end
      end
  end.

(** [s] begins with the characters of [w]; the text after them. *)
Fixpoint eat (w s : jsstring) : option jsstring :=
  match w with
  | [] => Some s
  | c :: w' =>
      match s with
      | d :: s' => if c =? d then eat w' s' else None
      | [] => None
      end
  end.

(** [obj[k] = v] while an object literal is read: a repeated name keeps its
    place and takes the later value. *)
Fixpoint set_field (k : jsstring) (v : JSON) (fields : list (jsstring * JSON)) :
    list (jsstring * JSON) :=
  match fields with
  | [] => [(k, v)]
  | (k', v') :: rest =>
      if bool_decide (k' = k) then (k, v) :: rest
      else (k', v') :: set_field k v rest
  end.

Fixpoint parse_value (fuel : nat) (s : jsstring) {struct fuel} : option (JSON * jsstring) :=
  match fuel with
  | O => None
  | S f =>
      match skip_ws s with
      | [] => None
      | c :: r =>
          if c =? 0x22 then
            match parse_string r with
            | Some (str, rest) => Some (JStr str, rest)
            | None => None
            end
          else if c =? 0x5B then
            match skip_ws r with
            | c' :: r' =>
                if c' =? 0x5D then Some (JArr [], r')
                else parse_elements f (c' :: r') []
            | [] => None
            end
          else if c =? 0x7B then
            match skip_ws r with
            | c' :: r' =>
                if c' =? 0x7D then Some (JObj [], r')
                else parse_members f (c' :: r') []
            | [] => None
            end
          else if c =? 0x6E then
            match eat (js "null") (c :: r) with
            | Some rest => Some (JNull, rest)
            | None => None
            end
          else if c =? 0x74 then
            match eat (js "true") (c :: r) with
            | Some rest => Some (JBool true, rest)
            | None => None
            end
          else if c =? 0x66 then
            match eat (js "false") (c :: r) with
            | Some rest => Some (JBool false, rest)
            | None => None
            end
          else
            match parse_number (c :: r) with
            | Some (n, rest) => Some (JNum n, rest)
            | None => None
            end
      end
  end
with parse_elements (fuel : nat) (s : jsstring) (acc : list JSON) {struct fuel} :
    option (JSON * jsstring) :=
  match fuel with
  | O => None
  | S f =>
      match parse_value f s with
      | Some (v, r) =>
          match skip_ws r with
          | c :: r' =>
              if c =? 0x2C then parse_elements f r' (acc ++ [v])
              else if c =? 0x5D then Some (JArr (acc ++ [v]), r')
              else None
          | [] => None
          end
      | None => None
      end
  end
with parse_members (fuel : nat) (s : jsstring) (acc : list (jsstring * JSON)) {struct fuel} :
    option (JSON * jsstring) :=
  match fuel with
  | O => None
  | S f =>
      match skip_ws s with
      | q :: s1 =>
          if q =? 0x22 then
            match parse_string s1 with
            | Some (k, s2) =>
                match skip_ws s2 with
                | colon :: s3 =>
                    if colon =? 0x3A then
                      match parse_value f s3 with
                      | Some (v, r) =>
                          match skip_ws r with
                          | c :: r' =>
                              if c =? 0x2C then parse_members f r' (set_field k v acc)
                              else if c =? 0x7D then Some (JObj (set_field k v acc), r')
                              else None
                          | [] => None
                          end
                      | None => None
                      end
                    else None
                | [] => None
                end
            | None => None
            end
          else None
      | [] => None
      end
  end.

(** [JSON.parse(text)]: [None] stands for the SyntaxError it throws. *)
Definition parse (text : jsstring) : option JSON :=
  match parse_value (2 * length text + 2) text with
  | Some (v, rest) =>
      match skip_ws rest with
      | [] => Some v
      | _ => None
      end
  | None => None
  end.

End Json.
Import Json.

(** ** [demo_requirements.ts]: the [ServerHandler] class *)

Module Client.

(** [RequestId | string]: the keys of the [handlers] map. *)
Inductive Key := KNum (n : number) | KStr (s : jsstring).

#[global] Instance Key_eq_dec : EqDecision Key.
Proof. solve_decision. Defined.

#[global] Instance number_countable : Countable number.
Proof.
  refine (inj_countable' (fun n => match n with Num m e => (m, e) end)
                         (fun p => Num (fst p) (snd p)) _).
  intros []; reflexivity.
Defined.

#[global] Instance Key_countable : Countable Key.
Proof.
  refine (inj_countable' (fun k => match k with KNum n => inl n | KStr s => inr s end)
                         (fun x => match x with inl n => KNum n | inr s => KStr s end) _).
  intros []; reflexivity.
Defined.

(** How a call of a caller-supplied function ends: normally, or with an
    exception, which is a [SyntaxError] or not and has a message. *)
Inductive Completion :=
| Returns
| Throws (syntaxError : bool) (message : jsstring).

#[global] Instance Completion_eq_dec : EqDecision Completion.
Proof. solve_decision. Defined.

(** The functions stored in [handlers]: the closure that [waitForResponse]
    builds around its timer and its promise, or a function the caller
    passed to [onResponse] itself.  Of the latter only the way its calls
    end is modelled; what its body does lies outside the handler. *)
Inductive Handler :=
| Waiter (timer : nat) (promise : nat)
| Callback (name : nat) (completion : Completion).

#[global] Instance Handler_eq_dec : EqDecision Handler.
Proof. solve_decision. Defined.

Inductive Promise :=
| Pending
| Resolved (response : JSON)
| Rejected (message : jsstring).

Inductive TimerState := Armed | Cleared | Fired.

(** A timer set by [waitForResponse]: its callback rejects [t_promise]
    with the timeout error for [t_key]. *)
Record Timer := mkTimer { t_state : TimerState; t_promise : nat; t_key : Key; t_delay : Z }.

Inductive ConsoleLine := Log (text : jsstring) | Error (text : jsstring).

(** The fields of a [ServerHandler] ([buffer], [handlers], the stdin of the
    spawned server) and what its methods touch of the runtime: the timers
    and promises they create, with the order in which promises were
    settled, the calls made to handlers and the console. *)
Record State := mkState {
  buffer : jsstring;
  handlers : gmap Key Handler;
  stdin : option Buffer;
  timers : list Timer;
  promises : list Promise;
  settled : list (nat * Promise);
  calls : list (Handler * JSON);
  console : list ConsoleLine
}.

Definition init : State := mkState [] ∅ (Some []) [] [] [] [] [].

Definition set_buffer (b : jsstring) (st : State) : State :=
  mkState b (handlers st) (stdin st) (timers st) (promises st) (settled st) (calls st) (console st).
Definition set_handlers (h : gmap Key Handler) (st : State) : State :=
  mkState (buffer st) h (stdin st) (timers st) (promises st) (settled st) (calls st) (console st).
Definition set_stdin (w : option Buffer) (st : State) : State :=
  mkState (buffer st) (handlers st) w (timers st) (promises st) (settled st) (calls st) (console st).
Definition set_timers (t : list Timer) (st : State) : State :=
  mkState (buffer st) (handlers st) (stdin st) t (promises st) (settled st) (calls st) (console st).
Definition set_promises (p : list Promise) (s : list (nat * Promise)) (st : State) : State :=
  mkState (buffer st) (handlers st) (stdin st) (timers st) p s (calls st) (console st).
Definition add_call (h : Handler) (v : JSON) (st : State) : State :=
  mkState (buffer st) (handlers st) (stdin st) (timers st) (promises st) (settled st)
          (calls st ++ [(h, v)]) (console st).
Definition print (l : ConsoleLine) (st : State) : State :=
  mkState (buffer st) (handlers st) (stdin st) (timers st) (promises st) (settled st)
          (calls st) (console st ++ [l]).

(** *** Runtime: promises and timers *)

(** [resolve(v)] and [reject(e)]: only a pending promise is settled. *)
Definition settle (p : nat) (outcome : Promise) (st : State) : State :=
  match promises st !! p with
  | Some Pending => set_promises (<[p := outcome]> (promises st)) (settled st ++ [(p, outcome)]) st
  | _ => st
  end.

Definition with_state (s : TimerState) (t : Timer) : Timer :=
  mkTimer s (t_promise t) (t_key t) (t_delay t).

(** [clearTimeout(t)]: only a timer that has not run is cancelled. *)
Definition clearTimeout (t : nat) (st : State) : State :=
  match timers st !! t with
  | Some tm =>
      match t_state tm with
      | Armed => set_timers (<[t := with_state Cleared tm]> (timers st)) st
      | _ => st
      end
  | None => st
  end.

Definition key_to_string (k : Key) : jsstring :=
  match k with
  | KNum n => number_to_string n
  | KStr s => s
  end.

(** The delay of timer [t] has elapsed: its callback runs unless the
    timer was cleared (or has already run). *)
Definition timer_fires (t : nat) (st : State) : State :=
  match timers st !! t with
  | Some tm =>
      match t_state tm with
      | Armed =>
          settle (t_promise tm)
                 (Rejected (js "Timeout waiting for response " ++ key_to_string (t_key tm)))
                 (set_timers (<[t := with_state Fired tm]> (timers st)) st)
      | _ => st
      end
  | None => st
  end.

(** *** Values as the routing code sees them *)

(** [v.name] for an own property of a parsed value other than [null]:
    [None] is [undefined]. *)
Fixpoint field (name : jsstring) (fields : list (jsstring * JSON)) : option JSON :=
  match fields with
  | [] => None
  | (k, v) :: rest =>
      match field name rest with
      | Some v' => Some v'
      | None => if bool_decide (k = name) then Some v else None
      end
  end.

Definition get (name : jsstring) (v : JSON) : option JSON :=
  match v with
  | JObj fields => field name fields
  | _ => None
  end.

(** ToBoolean. *)
Definition truthy (v : option JSON) : bool :=
  match v with
  | None => false
  | Some JNull => false
  | Some (JBool b) => b
  | Some (JNum (Num m _)) => negb (m =? 0)%Z
  | Some (JStr s) => Str.truthy s
  | Some (JArr _) => true
  | Some (JObj _) => true
  end.

(** [a || b] *)
Definition or_else (a b : option JSON) : option JSON := if truthy a then a else b.

(** [responseObj.id || responseObj.method || ''] *)
Definition routing_key (responseObj : JSON) : option JSON :=
  or_else (or_else (get (js "id") responseObj) (get (js "method") responseObj))
          (Some (JStr [])).

(** [this.handlers.get(x)]: keys are compared by value for numbers and
    strings; a boolean, an array or an object just parsed equals no key. *)
Definition handlers_get (x : option JSON) (st : State) : option Handler :=
  match x with
  | Some (JNum n) => handlers st !! KNum n
  | Some (JStr s) => handlers st !! KStr s
  | _ => None
  end.

(** *** Validators *)

Definition is_id (v : option JSON) : bool :=
  match v with
  | Some (JStr _) => true
  | Some (JNum (Num _ e)) => e =? 0
  | _ => false
  end.

Definition is_string (text : jsstring) (v : option JSON) : bool :=
  match v with Some (JStr s) => bool_decide (s = text) | _ => false end.

Definition has (name : jsstring) (v : JSON) : bool :=
  match get name v with Some _ => true | None => false end.

(** Modelled from the spec: [JSONRPCResponseSchema] of [../types.js], which
    is not part of the sources at hand.  The spec describes the validation
    library as "validate this value against this declared shape, raise on
    mismatch", the wire frame as an object whose field [jsonrpc] is the
    string 2.0 and whose [id] is a string or an integer, and a response as
    a message that "has `id` and either `result` or `error` (mutually
    exclusive)" and lacks [method]; here the [result] case. *)
Definition JSONRPCResponseSchema (v : JSON) : bool :=
  is_string (js "2.0") (get (js "jsonrpc") v)
  && is_id (get (js "id") v)
  && has (js "result") v
  && negb (has (js "error") v)
  && negb (has (js "method") v).

(** Modelled from the spec: [JSONRPCErrorSchema] of [../types.js], the
    [error] case of a response. *)
Definition JSONRPCErrorSchema (v : JSON) : bool :=
  is_string (js "2.0") (get (js "jsonrpc") v)
  && is_id (get (js "id") v)
  && has (js "error") v
  && negb (has (js "result") v)
  && negb (has (js "method") v).

(** [validators.jsonrpc(data)]: [None] stands for the exception raised on
    a mismatch; on a match the value is returned and one line is logged. *)
Definition validators_jsonrpc (data : JSON) (st : State) : option JSON * State :=
  if JSONRPCResponseSchema data
  then (Some data, print (Log (js "‚úÖ JSON-RPC response validated successfully")) st)
  else (None, st).

Definition validators_error (data : JSON) (st : State) : option JSON * State :=
  if JSONRPCErrorSchema data
  then (Some data, print (Log (js "‚úÖ JSON-RPC error response validated successfully")) st)
  else (None, st).

(** *** Methods *)

(** [handler(validatedResponse)], with the [catch] around it: an exception
    that is not a [SyntaxError] is logged, a [SyntaxError] is not. *)
Definition call_handler (h : Handler) (response : JSON) (st : State) : State :=
  let st := add_call h response st in
  match h with
  | Waiter timer promise => settle promise (Resolved response) (clearTimeout timer st)
  | Callback _ Returns => st
  | Callback _ (Throws true _) => st
  | Callback _ (Throws false message) =>
      print (Error (js "Error processing response: " ++ message)) st
  end.

Definition processLine (line : jsstring) (st : State) : State :=
  match Json.parse line with
  | None => st
  | Some rawResponse =>
      let '(validatedResponse, st) :=
        match validators_jsonrpc rawResponse st with
        | (Some v, st) => (v, st)
        | (None, st) =>
            match validators_error rawResponse st with
            | (Some v, st) => (v, st)
            | (None, st) => (rawResponse, st)
            end
        end in
      match validatedResponse with
      | JNull =>
          print (Error (js "Error processing response: Cannot read properties of null (reading 'id')")) st
      | responseObj =>
          match handlers_get (routing_key responseObj) st with
          | Some handler => call_handler handler validatedResponse st
          | None => st
          end
      end
  end.

Definition handleData (data : Buffer) (st : State) : State :=
  let text := buffer st ++ Utf8.decode data in
  let lines := Str.split 10 text in
  let st := set_buffer (List.last lines []) st in
  fold_left (fun st line => if Str.truthy (Str.trim line) then processLine line st else st)
            (List.removelast lines) st.

Definition send (message : JSON) (st : State) : State :=
  match stdin st with
  | Some written => set_stdin (Some (written ++ Utf8.encode (Json.stringify message ++ [10]))) st
  | None => st
  end.

Definition onResponse (id : Key) (handler : Handler) (st : State) : State :=
  set_handlers (<[id := handler]> (handlers st)) st.

(** [waitForResponse(id, timeout)]: the new promise and the state after the
    executor has run (timer set, handler registered). *)
Definition waitForResponse (id : Key) (timeout : Z) (st : State) : nat * State :=
  let promise := length (promises st) in
  let st := set_promises (promises st ++ [Pending]) (settled st) st in
  let timer := length (timers st) in
  let st := set_timers (timers st ++ [mkTimer Armed promise id timeout]) st in
  (promise, onResponse id (Waiter timer promise) st).

Definition DEMO_TIMEOUT : Z := 10000.

(** *** What can happen to a handler, one event at a time *)

Inductive Event :=
| EvData (data : Buffer)
| EvTimer (timer : nat)
| EvWaitForResponse (id : Key) (timeout : Z)
| EvOnResponse (id : Key) (callback : nat) (completion : Completion)
| EvSend (message : JSON).

Definition step (st : State) (e : Event) : State :=
  match e with
  | EvData data => handleData data st
  | EvTimer t => timer_fires t st
  | EvWaitForResponse id timeout => snd (waitForResponse id timeout st)
  | EvOnResponse id cb c => onResponse id (Callback cb c) st
  | EvSend m => send m st
  end.

Definition run (es : list Event) (st : State) : State := fold_left step es st.

(** *** Views of the state used in the statements below *)

(** The lines of [text] that end with a newline, and what follows the last
    newline: [lines] after [lines.pop()], and what [pop] returned. *)
Definition take_lines (text : jsstring) : list jsstring * jsstring :=
  let lines := Str.split 10 text in (List.removelast lines, List.last lines []).

(** The state after the validators have looked at [raw]: one line logged
    when a schema matches. *)
Definition validated (raw : JSON) (st : State) : State :=
  if JSONRPCResponseSchema raw
  then print (Log (js "‚úÖ JSON-RPC response validated successfully")) st
  else if JSONRPCErrorSchema raw
  then print (Log (js "‚úÖ JSON-RPC error response validated successfully")) st
  else st.

(** The handler a parsed frame is given to, if any. *)
Definition target (v : JSON) (st : State) : option Handler :=
  match v with
  | JNull => None
  | _ => handlers_get (routing_key v) st
  end.

(** A line with its terminator, and the texts that hold no newline. *)
Definition nl (l : jsstring) : jsstring := l ++ [10].

Definition no_newline (l : jsstring) : bool := forallb (fun c => negb (c =? 10)) l.

(** [if (line.trim())] *)
Definition nonblank (line : jsstring) : bool := Str.truthy (Str.trim line).

(** The lines given to [processLine] while the decoded chunks arrive one
    [handleData] call each, starting with buffer [b]; and the last buffer. *)
Fixpoint feed (b : jsstring) (chunks : list jsstring) : list jsstring * jsstring :=
  match chunks with
  | [] => ([], b)
  | c :: cs =>
      let '(ls, r) := take_lines (b ++ c) in
      let '(ls', r') := feed r cs in
      (filter nonblank ls ++ ls', r')
  end.

(** The same for chunks of bytes, each decoded when it arrives. *)
Definition received (b : jsstring) (chunks : list Buffer) : list jsstring * jsstring :=
  feed b (map Utf8.decode chunks).

(** What [send] writes for a message. *)
Definition wire (message : JSON) : Buffer :=
  Utf8.encode (Json.stringify message ++ [10]).

(** The outcomes with which promise [p] was settled, in order. *)
Definition outcomes (p : nat) (st : State) : list Promise :=
  map snd (filter (fun x => Nat.eqb (fst x) p) (settled st)).

(** The settlement log agrees with the promises: nothing for a pending
    promise, its outcome alone for a settled one. *)
Definition consistent (st : State) : Prop :=
  forall p, outcomes p st =
            match promises st !! p with
            | Some Pending | None => []
            | Some o => [o]
            end.

(** [JSON.parse(line)] does not throw. *)
Definition well_formed (line : jsstring) : bool :=
  match Json.parse line with Some _ => true | None => false end.

(** The index after the first byte of the first multi-byte character. *)
Fixpoint inside_first_character (bytes : Buffer) : nat :=
  match bytes with
  | [] => O
  | b :: rest => if b <=? 0x7F then S (inside_first_character rest) else 1%nat
  end.

(** [st'] continues [st]: a consistent log stays consistent and a promise
    that was settled keeps its outcome. *)
Definition continues (st st' : State) : Prop :=
  (consistent st -> consistent st') /\
  (forall p o, promises st !! p = Some o -> o <> Pending -> promises st' !! p = Some o).

(** A success response carrying [result] for request [id]. *)
Definition response (id : JSON) (result : JSON) : JSON :=
  JObj [(js "jsonrpc", JStr (js "2.0")); (js "id", id); (js "result", result)].

(** A request from the peer. *)
Definition request (id : JSON) (method : jsstring) : JSON :=
  JObj [(js "jsonrpc", JStr (js "2.0")); (js "id", id); (js "method", JStr method)].

Definition id3 : Key := KNum (int 3).
Definition ok3 : JSON := response (JNum (int 3)) (JObj []).
Definition zero : JSON := response (JNum (int 0)) (JObj []).
Definition sampling : jsstring := js "sampling/createMessage".

(** The result of a tool call that was refused, as the OAuth server of the
    demo sends it. *)
Definition denied (message : jsstring) : JSON :=
  JObj [(js "content", JArr [JObj [(js "type", JStr (js "text")); (js "text", JStr message)]]);
        (js "isError", JBool true)].

(** The response to the refused [deleteUser] call of the demo, and what
    the client makes of it when a chunk ends inside its first character. *)
Definition refusal : JSON :=
  response (JNum (int 3))
           (denied (js "❌ Access denied: Missing required scope 'admin:users:delete'")).

Definition garbled : JSON :=
  response (JNum (int 3))
           (denied ([0xFFFD; 0xFFFD; 0xFFFD]
                    ++ js " Access denied: Missing required scope 'admin:users:delete'")).

(** *** Timers and promises

    What the timer of a [waitForResponse] call tells about its promise:
    armed while the promise is pending, cleared once it is resolved, fired
    once it is rejected. *)
Definition paired (s : TimerState) (p : option Promise) : Prop :=
  match s, p with
  | Armed, Some Pending => True
  | Cleared, Some (Resolved _) => True
  | Fired, Some (Rejected _) => True
  | _, _ => False
  end.

(** Timer and promise of one [waitForResponse] call have the same index
    and agree as [paired] says; a waiter in the map holds the timer and the
    promise of the call that registered it under that key. *)
Definition mirrors (st : State) : Prop :=
  length (timers st) = length (promises st) /\
  (forall t tm, timers st !! t = Some tm ->
     t_promise tm = t /\ paired (t_state tm) (promises st !! t)) /\
  (forall k t p, handlers st !! k = Some (Waiter t p) ->
     t = p /\ exists tm, timers st !! t = Some tm /\ t_key tm = k).

(** The value of [id] in a frame that answers the key [k]. *)
Definition key_json (k : Key) : JSON :=
  match k with
  | KNum n => JNum n
  | KStr s => JStr s
  end.


(** The error a call waiting under [k] is rejected with. *)
Definition timeout_error (k : Key) : Promise :=
  Rejected (js "Timeout waiting for response " ++ key_to_string k).


End Client.

(** ** The requirement tree ([Requirement] of [../types.js], as the code
       takes it apart) *)

Inductive Permission :=
| Scope (value : jsstring)
| Claim (name value : jsstring)
| Resource (uri value : jsstring)
| Input (property : option jsstring) (value : jsstring).

Inductive Requirement :=
| ReqCapability (name : jsstring)
| ReqPermission (p : Permission)
| ReqAnyOf (anyOf : list Requirement)
| ReqAllOf (allOf : list Requirement)
| ReqNot (not : Requirement).

(** Induction over requirement trees, children included. *)
Fixpoint Requirement_nested_ind (P : Requirement -> Prop)
    (Hcap : forall name, P (ReqCapability name))
    (Hperm : forall p, P (ReqPermission p))
    (Hany : forall l, Forall P l -> P (ReqAnyOf l))
    (Hall : forall l, Forall P l -> P (ReqAllOf l))
    (Hnot : forall r, P r -> P (ReqNot r))
    (req : Requirement) {struct req} : P req :=
  let go := Requirement_nested_ind P Hcap Hperm Hany Hall Hnot in
  match req with
  | ReqCapability name => Hcap name
  | ReqPermission p => Hperm p
  | ReqAnyOf l =>
      Hany l ((fix all (l : list Requirement) : Forall P l :=
                 match l with
                 | [] => Forall_nil P
                 | x :: xs => Forall_cons P x xs (go x) (all xs)
                 end) l)
  | ReqAllOf l =>
      Hall l ((fix all (l : list Requirement) : Forall P l :=
                 match l with
                 | [] => Forall_nil P
                 | x :: xs => Forall_cons P x xs (go x) (all xs)
                 end) l)
  | ReqNot r => Hnot r (go r)
  end.

(** ** [demo_requirements.ts]: [display.requirement] *)

Module Display.

Definition subType (p : Permission) : jsstring :=
  match p with
  | Scope _ => js "scope"
  | Claim _ _ => js "claim"
  | Resource _ _ => js "resource"
  | Input _ _ => js "input"
  end.

(** [details[req.subType]?.()]: the lines logged for a permission. *)
Definition details (p : Permission) (indent : jsstring) : list jsstring :=
  match p with
  | Scope value => [indent ++ js "  value: " ++ value]
  | Claim name value =>
      [indent ++ js "  name: " ++ name ++ [10] ++ indent ++ js "  value: " ++ value]
  | Resource uri value =>
      [indent ++ js "  uri: " ++ uri ++ [10] ++ indent ++ js "  value: " ++ value]
  | Input property value =>
      match property with
      | Some prop =>
          if Str.truthy prop then [indent ++ js "  property: " ++ prop] else []
      | None => []
      end ++ [indent ++ js "  value: " ++ value]
  end.

(** [display.requirement(req, indent)]: the arguments of its
    [console.log] calls, in order, when the call runs to its end.  The
    call stack it needs for that is accounted for in
    [requirement_on_stack] below. *)
Fixpoint requirement (req : Requirement) (indent : jsstring) : list jsstring :=
  let prefix := Str.slice_to_end_minus 2 indent ++ js "- " in
  match req with
  | ReqCapability name => [prefix ++ js "Capability: " ++ name]
  | ReqPermission p => (prefix ++ js "Permission: " ++ subType p) :: details p indent
  | ReqAnyOf anyOf =>
      (prefix ++ js "Any of:")
        :: concat (map (fun subReq => requirement subReq (indent ++ js "    ")) anyOf)
  | ReqAllOf allOf =>
      (prefix ++ js "All of:")
        :: concat (map (fun subReq => requirement subReq (indent ++ js "    ")) allOf)
  | ReqNot not => (prefix ++ js "Not:") :: requirement not (indent ++ js "  ")
  end.

(** The default value of [indent]. *)
Definition default_indent : jsstring := js "     ".

(** [if (!req) return;] for a missing requirement. *)
Definition requirement_opt (req : option Requirement) (indent : jsstring) : list jsstring :=
  match req with
  | None => []
  | Some r => requirement r indent
  end.

(** Measures of a tree. *)
Fixpoint depth (req : Requirement) : nat :=
  match req with
  | ReqCapability _ | ReqPermission _ => 1
  | ReqAnyOf l | ReqAllOf l => S (fold_right Nat.max O (map depth l))
  | ReqNot r => S (depth r)
  end.





(** How a call ends: it returns, or the engine ends it with
    [RangeError: Maximum call stack size exceeded]. *)
Inductive Exit := Returned | RangeError.

(** [xs.forEach(f)]: the calls are made in order, and an exception ends
    the loop. *)
Definition forEach {A} (f : A -> list jsstring * Exit) : list A -> list jsstring * Exit :=
  fix each (xs : list A) : list jsstring * Exit :=
    match xs with
    | [] => ([], Returned)
    | x :: xs' =>
        match f x with
        | (lines, Returned) => let '(lines', exit) := each xs' in (lines ++ lines', exit)
        | (lines, RangeError) => (lines, RangeError)
        end
    end.

(** [display.requirement(req, indent)] on a call stack that holds [room]
    more nested activations of [display.requirement]: the arguments of the
    [console.log] calls made, in order, and how the call ends.  Every
    activation logs its first line and then calls itself for the children,
    one level deeper each; the frames of [forEach], of its callback and of
    [console.log] are not counted apart.  The source fixes no such number
    and tests none: it is the engine that ends a call for which no room is
    left. *)
Fixpoint requirement_on_stack (room : nat) (req : Requirement) (indent : jsstring) {struct req} :
    list jsstring * Exit :=
  match room with
  | O => ([], RangeError)
  | S room' =>
      let prefix := Str.slice_to_end_minus 2 indent ++ js "- " in
      match req with
      | ReqCapability name => ([prefix ++ js "Capability: " ++ name], Returned)
      | ReqPermission p => ((prefix ++ js "Permission: " ++ subType p) :: details p indent, Returned)
      | ReqAnyOf anyOf =>
          let '(lines, exit) :=
            forEach (fun subReq => requirement_on_stack room' subReq (indent ++ js "    ")) anyOf in
          ((prefix ++ js "Any of:") :: lines, exit)
      | ReqAllOf allOf =>
          let '(lines, exit) :=
            forEach (fun subReq => requirement_on_stack room' subReq (indent ++ js "    ")) allOf in
          ((prefix ++ js "All of:") :: lines, exit)
      | ReqNot not =>
          let '(lines, exit) := requirement_on_stack room' not (indent ++ js "  ") in
          ((prefix ++ js "Not:") :: lines, exit)
      end
  end.

(** What a call on a stack with [room] comes to, given all it would log. *)
Definition ends (room : nat) (req : Requirement) (indent : jsstring)
    (result : list jsstring * Exit) : Prop :=
  match snd result with
  | Returned => (depth req <= room)%nat /\ fst result = requirement req indent
  | RangeError =>
      (room < depth req)%nat /\
      exists rest, rest <> [] /\ requirement req indent = fst result ++ rest
  end.

End Display.

(** ** [server/toolWithOAuthServer.ts] *)

Module OAuthServer.

Record ContentItem := mkContent { type : jsstring; text : jsstring }.

Record CallToolResult := mkResult { content : list ContentItem; isError : option bool }.

(** The module variable [currentScopes] and the server's console. *)
Record State := mkState { currentScopes : list jsstring; console : list jsstring }.

(** [let currentScopes: string[] = [];] *)
Definition loaded : State := mkState [] [].

Definition hasScope (requiredScope : jsstring) (st : State) : bool :=
  Str.includes (currentScopes st) requiredScope.

(** The [requires] field each tool is registered with; [None] where the
    registration has no such field. *)
Definition requires (tool : jsstring) : option (list Requirement) :=
  if bool_decide (tool = js "readUserProfile") then
    Some [ReqPermission (Scope (js "user:read"))]
  else if bool_decide (tool = js "deleteUser") then
    Some [ReqPermission (Scope (js "admin:users:delete"))]
  else if bool_decide (tool = js "transferFunds") then
    Some [ReqAllOf [ReqPermission (Scope (js "accounts:read"));
                    ReqPermission (Scope (js "accounts:write"))]]
  else None.

Definition text_result (t : jsstring) (err : option bool) : CallToolResult :=
  mkResult [mkContent (js "text") t] err.

Definition readUserProfile (userId : jsstring) (st : State) : CallToolResult * State :=
  if negb (hasScope (js "user:read") st) then
    (text_result (js "❌ Access denied: Missing required scope 'user:read'") (Some true), st)
  else
    (text_result (js "✅ User Profile for " ++ userId ++ js ":" ++ [10]
                  ++ js "- Name: John Doe" ++ [10]
                  ++ js "- Email: john@example.com" ++ [10]
                  ++ js "- Role: User") None, st).

Definition deleteUser (userId : jsstring) (st : State) : CallToolResult * State :=
  if negb (hasScope (js "admin:users:delete") st) then
    (text_result (js "❌ Access denied: Missing required scope 'admin:users:delete'")
                 (Some true), st)
  else
    (text_result (js "✅ User " ++ userId ++ js " has been deleted successfully") None, st).

(** [missingScopes] as the callback fills it. *)
Definition missingScopes (st : State) : list jsstring :=
  (if negb (hasScope (js "accounts:read") st) then [js "accounts:read"] else [])
  ++ (if negb (hasScope (js "accounts:write") st) then [js "accounts:write"] else []).

Definition transferFunds (fromAccount toAccount : jsstring) (amount : number) (st : State) :
    CallToolResult * State :=
  if negb (hasScope (js "accounts:read") st) || negb (hasScope (js "accounts:write") st) then
    (text_result (js "❌ Access denied: Missing required scopes: "
                  ++ Str.join (js ", ") (missingScopes st)) (Some true), st)
  else
    (text_result (js "✅ Transferred $" ++ number_to_string amount ++ js " from "
                  ++ fromAccount ++ js " to " ++ toAccount) None, st).

Definition _updateClientScopes (scopes : list jsstring) (st : State) : CallToolResult * State :=
  let st := mkState scopes
                    (console st ++ [js "🔄 Client scopes updated: " ++ Str.join (js ", ") scopes]) in
  (text_result (js "OAuth scopes updated: " ++ Str.join (js ", ") scopes) None, st).

(** What [main] itself does to the state before it connects the
    transport.  The line [oauthServer.start()] logs before that, which
    names the port it found free, is left out. *)
Definition main (st : State) : State :=
  let scopes := [js "user:read"] in
  mkState scopes
          (console st ++ [js "🔑 Server initialized with client scopes: "
                          ++ Str.join (js ", ") scopes;
                          js "MCP server with OAuth is running..."]).

Definition admin_scope : jsstring := js "admin:users:delete".

(** The requirement [transferFunds] declares. *)
Definition transfer_requirement : Requirement :=
  ReqAllOf [ReqPermission (Scope (js "accounts:read"));
            ReqPermission (Scope (js "accounts:write"))].

(** What the demo client tests: [result.isError]. *)
Definition failed (r : CallToolResult) : bool :=
  match isError r with Some b => b | None => false end.

End OAuthServer.

(** ** The evaluator of the specification *)

Module Spec.

(** Modelled from the spec: CallerContext, section 3 ("a set of capability
    names, a set of granted scopes, a mapping of claim-name to value, a
    mapping of resource URI to permission-value set, and the current
    invocation's input argument mapping"); [input_any] is the
    implementation-defined comparison used when no property is named. *)
Record CallerContext := mkContext {
  capabilities : list jsstring;
  scopes : list jsstring;
  claims : list (jsstring * jsstring);
  resourcePermissions : list (jsstring * list jsstring);
  inputs : list (jsstring * jsstring);
  input_any : jsstring -> bool
}.

Fixpoint assoc {A} (k : jsstring) (l : list (jsstring * A)) : option A :=
  match l with
  | [] => None
  | (k', v) :: rest => if bool_decide (k' = k) then Some v else assoc k rest
  end.

(** Modelled from the spec: the leaf cases of [evaluate], section 4.1. *)
Definition holds (p : Permission) (ctx : CallerContext) : bool :=
  match p with
  | Scope value => Str.includes (scopes ctx) value
  | Claim name value =>
      match assoc name (claims ctx) with
      | Some v => bool_decide (v = value)
      | None => false
      end
  | Resource uri value =>
      match assoc uri (resourcePermissions ctx) with
      | Some vs => Str.includes vs value
      | None => false
      end
  | Input (Some property) value =>
      match assoc property (inputs ctx) with
      | Some v => bool_decide (v = value)
      | None => false
      end
  | Input None value => input_any ctx value
  end.

(** Modelled from the spec: [evaluate(expr, ctx)] of section 4.1, the
    verdict. *)
Fixpoint satisfied (expr : Requirement) (ctx : CallerContext) : bool :=
  match expr with
  | ReqCapability name => Str.includes (capabilities ctx) name
  | ReqPermission p => holds p ctx
  | ReqAnyOf children => existsb (fun c => satisfied c ctx) children
  | ReqAllOf children => forallb (fun c => satisfied c ctx) children
  | ReqNot child => negb (satisfied child ctx)
  end.

(** Modelled from the spec: [evaluate(expr, ctx)] of section 4.1, the unmet
    leaves: all of them across the children of [AllOf]; those of every
    child of an [AnyOf] of which none is satisfied; the child expression
    itself for an unsatisfied [Not]. *)
Fixpoint unmetLeaves (expr : Requirement) (ctx : CallerContext) : list Requirement :=
  match expr with
  | ReqCapability _ | ReqPermission _ => if satisfied expr ctx then [] else [expr]
  | ReqAnyOf children =>
      if satisfied expr ctx then []
      else concat (map (fun c => unmetLeaves c ctx) children)
  | ReqAllOf children => concat (map (fun c => unmetLeaves c ctx) children)
  | ReqNot child => if satisfied expr ctx then [] else [child]
  end.

End Spec.

(** ** demo_requirements.ts: [display.tool] and the summary *)

Module DisplayTool.
Import Json Display.

(** An entry of [inputSchema.properties], read as
    [{ type?: string; description?: string }]. *)
Record ParamSchema := mkParam { p_type : option jsstring; p_description : option jsstring }.

(** [properties] holds the pairs in the order [Object.entries] gives
    them. *)
Record InputSchema := mkInput {
  properties : option (list (jsstring * ParamSchema));
  required : option (list jsstring)
}.

(** A tool of the [tools/list] result; every member of [requires] is a
    requirement, so [validators.requirement] returns it. *)
Record Tool := mkTool {
  name : jsstring;
  description : option jsstring;
  requires : option (list Requirement);
  inputSchema : option InputSchema
}.

(** An optional string inside a template literal. *)
Definition show (x : option jsstring) : jsstring :=
  match x with Some s => s | None => js "undefined" end.

(** [x || fallback] for an optional string. *)
Definition or_default (x : option jsstring) (fallback : jsstring) : jsstring :=
  match x with
  | Some s => if Str.truthy s then s else fallback
  | None => fallback
  end.

(** [tool.requires?.length && tool.requires.length > 0] *)
Definition has_requirements (t : Tool) : bool :=
  match requires t with
  | Some (_ :: _) => true
  | _ => false
  end.

(** [!t.requires || t.requires.length === 0] *)
Definition has_no_requirements (t : Tool) : bool :=
  match requires t with
  | None => true
  | Some l => Nat.eqb (length l) 0
  end.

(** The lines logged for one entry of [inputSchema.properties]. *)
Definition parameter (schema : InputSchema) (entry : jsstring * ParamSchema) : list jsstring :=
  let '(param, schemaObj) := entry in
  let required :=
    match required schema with
    | Some names => if Str.includes names param then js " (required)" else js " (optional)"
    | None => js " (optional)"
    end in
  (js "     - " ++ param ++ js ": " ++ show (p_type schemaObj) ++ required)
    :: match p_description schemaObj with
       | Some d => if Str.truthy d then [js "       " ++ d] else []
       | None => []
       end.

(** The lines [console.log] prints for its arguments: an argument that
    holds line feeds gives several lines. *)
Definition printed (args : list jsstring) : list jsstring :=
  concat (map (Str.split 10) args).

Definition plain_permission (p : Permission) : bool :=
  match p with
  | Scope value => Client.no_newline value
  | Claim name value => Client.no_newline name && Client.no_newline value
  | Resource uri value => Client.no_newline uri && Client.no_newline value
  | Input property value =>
      match property with Some prop => Client.no_newline prop | None => true end && Client.no_newline value
  end.

(** No string of the requirement holds a line feed. *)
Fixpoint plain (req : Requirement) : bool :=
  match req with
  | ReqCapability name => Client.no_newline name
  | ReqPermission p => plain_permission p
  | ReqAnyOf l | ReqAllOf l => forallb plain l
  | ReqNot r => plain r
  end.

Definition plain_opt (x : option jsstring) : bool :=
  match x with Some s => Client.no_newline s | None => true end.

(** No string of the tool holds a line feed. *)
Definition plain_tool (t : Tool) : bool :=
  Client.no_newline (name t) && plain_opt (description t)
  && match requires t with Some l => forallb plain l | None => true end
  && match inputSchema t with
     | Some schema =>
         match properties schema with
         | Some entries =>
             forallb (fun entry => Client.no_newline (fst entry) && plain_opt (p_type (snd entry))
                                   && plain_opt (p_description (snd entry))) entries
         | None => true
         end
     | None => true
     end.

(** [display.tool(tool, index)] on a stack that holds [room] nested
    activations of [display.requirement]: the arguments of its
    [console.log] calls and how the call ends.  A RangeError raised under
    [display.requirement] is not caught here, so nothing is logged after
    it. *)
Definition tool (room : nat) (t : Tool) (index : nat) : list jsstring * Exit :=
  let head :=
    [[10] ++ digits (N.of_nat (index + 1)) ++ js ". Tool: " ++ name t;
     js "   Description: " ++ or_default (description t) (js "No description")] in
  let '(requirements, exit) :=
    if has_requirements t then
      let '(lines, exit) :=
        forEach (fun req => requirement_on_stack room req (js "       "))
                (match requires t with Some l => l | None => [] end) in
      (js "   Requirements:" :: lines, exit)
    else ([js "   Requirements: None (can run in any environment)"], Returned) in
  match exit with
  | Returned =>
      (head ++ requirements
       ++ match inputSchema t with
          | Some schema =>
              match properties schema with
              | Some entries =>
                  js "   Input Parameters:" :: concat (map (parameter schema) entries)
              | None => []
              end
          | None => []
          end, Returned)
  | RangeError => (head ++ requirements, RangeError)
  end.

(** The three numbers of the summary of [runRequirementsDemo]: tools
    found, tools with requirements, tools without. *)
Definition summary (tools : list Tool) : nat * nat * nat :=
  (length tools, length (filter has_requirements tools),
   length (filter has_no_requirements tools)).

(** A line that starts with all of [indent] but its last two
    characters. *)
Definition indented (indent line : jsstring) : Prop :=
  exists rest, line = Str.slice_to_end_minus 2 indent ++ rest.

(** What tells a printed line of [display.tool] from its two lines about
    requirements: it is empty, starts with a digit, or has a space, a [D]
    or an [I] as its fourth character. *)
Definition other (line : jsstring) : Prop :=
  line = [] \/ 48 <= nth 0 line 0 <= 57 \/
  nth 3 line 0 = 32 \/ nth 3 line 0 = 68 \/ nth 3 line 0 = 73.

End DisplayTool.

(** ** toolWithOAuthServer.ts: a session of tool calls *)

Module OAuthSession.
Import Json OAuthServer.

(** A [tools/call] request for one of the four registered tools, with
    arguments of the declared shape. *)
Inductive Call :=
| ReadUserProfile (userId : jsstring)
| DeleteUser (userId : jsstring)
| TransferFunds (fromAccount toAccount : jsstring) (amount : number)
| UpdateClientScopes (scopes : list jsstring).

(** The name the tool is registered under. *)
Definition tool_name (c : Call) : jsstring :=
  match c with
  | ReadUserProfile _ => js "readUserProfile"
  | DeleteUser _ => js "deleteUser"
  | TransferFunds _ _ _ => js "transferFunds"
  | UpdateClientScopes _ => js "_updateClientScopes"
  end.

(** The callback registered under that name. *)
Definition call (c : Call) (st : State) : CallToolResult * State :=
  match c with
  | ReadUserProfile userId => readUserProfile userId st
  | DeleteUser userId => deleteUser userId st
  | TransferFunds fromAccount toAccount amount => transferFunds fromAccount toAccount amount st
  | UpdateClientScopes scopes => _updateClientScopes scopes st
  end.

(** Calls served one after the other: the results, and the last state. *)
Fixpoint serve (cs : list Call) (st : State) : list CallToolResult * State :=
  match cs with
  | [] => ([], st)
  | c :: cs' =>
      let '(r, st1) := call c st in
      let '(rs, st2) := serve cs' st1 in
      (r :: rs, st2)
  end.

(** The list given to the last [_updateClientScopes] among [cs], or
    [initial] if there is none. *)
Fixpoint last_update (cs : list Call) (initial : list jsstring) : list jsstring :=
  match cs with
  | [] => initial
  | UpdateClientScopes scopes :: cs' => last_update cs' scopes
  | _ :: cs' => last_update cs' initial
  end.

(** The scope values written in a requirement. *)
Fixpoint scope_values (r : Requirement) : list jsstring :=
  match r with
  | ReqPermission (Scope value) => [value]
  | ReqCapability _ | ReqPermission _ => []
  | ReqAnyOf l | ReqAllOf l => concat (map scope_values l)
  | ReqNot r' => scope_values r'
  end.

(** The scope values written in the [requires] field of the registration
    of the tool. *)
Definition declared_scopes (c : Call) : list jsstring :=
  match requires (tool_name c) with
  | Some l => concat (map scope_values l)
  | None => []
  end.

End OAuthSession.

(** ** demo_requirements.ts: the server processes *)

Module Processes.

(** A [ChildProcess] as [cleanup] and [kill] see it: whether the process
    still runs, its [killed] flag, and the signals sent to it. *)
Record ChildProcess := mkProcess { running : bool; killed : bool; signals : list jsstring }.

(** The child processes spawned so far, the module variable
    [activeProcesses] (positions in the former), the [server] field of
    each [ServerHandler], and the console. *)
Record World := mkWorld {
  table : list ChildProcess;
  activeProcesses : list nat;
  servers : list (option nat);
  console : list jsstring
}.

Definition init : World := mkWorld [] [] [] [].

(** [proc.kill(signal)]: a process that still runs is sent the signal and
    flagged [killed]; for one that has exited nothing happens. *)
Definition kill (signal : jsstring) (proc : ChildProcess) : ChildProcess :=
  if running proc then mkProcess true true (signals proc ++ [signal]) else proc.

(** [if (proc && !proc.killed) proc.kill('SIGTERM')] *)
Definition kill_unless_killed (p : nat) (tbl : list ChildProcess) : list ChildProcess :=
  match tbl !! p with
  | Some proc => if killed proc then tbl else <[p := kill (js "SIGTERM") proc]> tbl
  | None => tbl
  end.

Definition cleanup (w : World) : World :=
  mkWorld (fold_left (fun tbl p => kill_unless_killed p tbl) (activeProcesses w) (table w))
          (activeProcesses w) (servers w)
          (console w ++ [[10] ++ js "üßπ Cleaning up active processes..."]).

(** [new ServerHandler(...)]: [server] is [null]. *)
Definition construct (w : World) : World :=
  mkWorld (table w) (activeProcesses w) (servers w ++ [None]) (console w).

(** [handler.start()] for the handler numbered [h]: the process spawned
    is stored in [server] and pushed on [activeProcesses]. *)
Definition start (h : nat) (w : World) : World :=
  match servers w !! h with
  | Some _ =>
      let p := length (table w) in
      mkWorld (table w ++ [mkProcess true false []])
              (activeProcesses w ++ [p])
              (<[h := Some p]> (servers w))
              (console w)
  | None => w
  end.

(** [handler.kill()] for the handler numbered [h]. *)
Definition handler_kill (h : nat) (w : World) : World :=
  match servers w !! h with
  | Some (Some p) =>
      mkWorld (kill_unless_killed p (table w)) (activeProcesses w) (servers w) (console w)
  | _ => w
  end.

(** The process numbered [p] exits. *)
Definition exits (p : nat) (w : World) : World :=
  match table w !! p with
  | Some proc =>
      mkWorld (<[p := mkProcess false (killed proc) (signals proc)]> (table w))
              (activeProcesses w) (servers w) (console w)
  | None => w
  end.

Inductive Event :=
| New
| Start (h : nat)
| Kill (h : nat)
| Cleanup
| Exit (p : nat).

Definition step (w : World) (e : Event) : World :=
  match e with
  | New => construct w
  | Start h => start h w
  | Kill h => handler_kill h w
  | Cleanup => cleanup w
  | Exit p => exits p w
  end.

Definition run (es : list Event) (w : World) : World := fold_left step es w.

(** A process was sent nothing and is not flagged, or was sent SIGTERM
    once and is flagged. *)
Definition signalled_once (proc : ChildProcess) : Prop :=
  (killed proc = false /\ signals proc = []) \/
  (killed proc = true /\ signals proc = [js "SIGTERM"]).

End Processes.

(** * Properties *)

(** ** Strings *)

Lemma includes_In (xs : list jsstring) (x : jsstring) :
  Str.includes xs x = true <-> In x xs.
Proof.
  unfold Str.includes. rewrite existsb_exists. split.
  - intros (y & Hy & Heq). apply bool_decide_eq_true in Heq. now subst.
  - intros H. exists x. split; [assumption | now apply bool_decide_eq_true].
Qed.

Lemma includes_false (xs : list jsstring) (x : jsstring) :
  Str.includes xs x = false <-> ~ In x xs.
Proof.
  rewrite <- includes_In. destruct (Str.includes xs x); split; congruence.
Qed.

(** ** The OAuth server's tools *)

Section OAuthTools.
Import OAuthServer.

(** C4: without "admin:users:delete" among the current scopes, [deleteUser]
    returns an [isError] result and leaves the state (hence the scopes)
    as it was; once [_updateClientScopes] has set a list that includes that
    scope, the same call returns a result with no [isError]. *)
Theorem deleteUser_denied_then_granted
    (userId : jsstring) (scopes : list jsstring) (st : State)
    (Hlacks : hasScope admin_scope st = false)
    (Hgrant : Str.includes scopes admin_scope = true) :
  let '(denied, st1) := deleteUser userId st in
  let '(_, st2) := _updateClientScopes scopes st1 in
  let '(granted, _) := deleteUser userId st2 in
  isError denied = Some true /\ failed denied = true /\
  text <$> content denied
    = [js "❌ Access denied: Missing required scope 'admin:users:delete'"] /\
  st1 = st /\ currentScopes st1 = currentScopes st /\
  isError granted = None /\ failed granted = false /\
  text <$> content granted = [js "✅ User " ++ userId ++ js " has been deleted successfully"].
Proof.
  unfold deleteUser. fold admin_scope. rewrite Hlacks. cbn [negb].
  unfold _updateClientScopes, hasScope. cbn [currentScopes].
  rewrite Hgrant. cbn [negb]. repeat split.
Qed.

Lemma deleteUser_denied_then_granted_witness :
  hasScope admin_scope (main loaded) = false /\
  Str.includes [js "user:read"; js "admin:users:delete"] admin_scope = true /\
  let '(denied, st1) := deleteUser (js "user123") (main loaded) in
  let '(_, st2) := _updateClientScopes [js "user:read"; js "admin:users:delete"] st1 in
  let '(granted, _) := deleteUser (js "user123") st2 in
  isError denied = Some true /\ failed denied = true /\
  text <$> content denied
    = [js "❌ Access denied: Missing required scope 'admin:users:delete'"] /\
  st1 = main loaded /\ currentScopes st1 = currentScopes (main loaded) /\
  isError granted = None /\ failed granted = false /\
  text <$> content granted
    = [js "✅ User " ++ js "user123" ++ js " has been deleted successfully"].
Proof.
  split; [reflexivity |]. split; [reflexivity |].
  apply (deleteUser_denied_then_granted (js "user123")
           [js "user:read"; js "admin:users:delete"] (main loaded)); reflexivity.
Defined.

(** C10: [_updateClientScopes] is registered without [requires] and its
    callback tests nothing: for every list [scopes] and every state it
    returns a result with no [isError], and the current scopes become
    exactly [scopes], so afterwards [hasScope s] holds iff [s] is in
    [scopes]; a scope held before and not listed is no longer held. *)
Theorem updateClientScopes_replaces (scopes : list jsstring) (st : State) :
  requires (js "_updateClientScopes") = None /\
  let '(r, st') := _updateClientScopes scopes st in
  isError r = None /\ failed r = false /\
  currentScopes st' = scopes /\
  (forall s, hasScope s st' = true <-> In s scopes) /\
  (forall s, hasScope s st = true -> ~ In s scopes -> hasScope s st' = false).
Proof.
  split; [reflexivity |].
  unfold _updateClientScopes, hasScope; cbn [currentScopes isError failed text_result].
  repeat split.
  - now apply includes_In.
  - now apply includes_In.
  - intros s _ Hnot. now apply includes_false.
Qed.

Lemma allOf_satisfied (children : list Requirement) (ctx : Spec.CallerContext) :
  Spec.satisfied (ReqAllOf children) ctx = true <->
  forall c, In c children -> Spec.satisfied c ctx = true.
Proof. cbn [Spec.satisfied]. apply forallb_forall. Qed.

(** C7: [transferFunds] is registered with the single requirement
    [allOf [scope accounts:read, scope accounts:write]].  Its call succeeds
    iff both scopes are among the current ones, which is the verdict of the
    specification's [AllOf] (all children satisfied) in any context with
    these scopes; when it fails, the message is the fixed prefix followed
    by the missing scopes joined with ", ", and the missing scopes are
    exactly those of the two that are not held, in declaration order: the
    unmet leaves that the specification's [AllOf] collects. *)
Theorem transferFunds_allOf
    (fromAccount toAccount : jsstring) (amount : number) (st : State)
    (caps : list jsstring) (claims : list (jsstring * jsstring))
    (res : list (jsstring * list jsstring)) (inputs : list (jsstring * jsstring))
    (any : jsstring -> bool) :
  let ctx := Spec.mkContext caps (currentScopes st) claims res inputs any in
  let r := fst (transferFunds fromAccount toAccount amount st) in
  requires (js "transferFunds") = Some [transfer_requirement] /\
  snd (transferFunds fromAccount toAccount amount st) = st /\
  (failed r = false <->
     hasScope (js "accounts:read") st = true /\ hasScope (js "accounts:write") st = true) /\
  Spec.satisfied transfer_requirement ctx = negb (failed r) /\
  (Spec.satisfied transfer_requirement ctx = true <->
     forall c, In c [ReqPermission (Scope (js "accounts:read"));
                     ReqPermission (Scope (js "accounts:write"))] ->
               Spec.satisfied c ctx = true) /\
  (failed r = true ->
     r = text_result (js "❌ Access denied: Missing required scopes: "
                      ++ Str.join (js ", ") (missingScopes st)) (Some true)) /\
  (forall s, In s (missingScopes st) <->
             (s = js "accounts:read" \/ s = js "accounts:write") /\ hasScope s st = false) /\
  map (fun s => ReqPermission (Scope s)) (missingScopes st)
    = Spec.unmetLeaves transfer_requirement ctx.
Proof.
  cbv zeta. split; [reflexivity |].
  split; [unfold transferFunds; now destruct (_ || _) |].
  assert (Hall := allOf_satisfied
                    [ReqPermission (Scope (js "accounts:read"));
                     ReqPermission (Scope (js "accounts:write"))]
                    (Spec.mkContext caps (currentScopes st) claims res inputs any)).
  fold transfer_requirement in Hall.
  unfold transferFunds, missingScopes, transfer_requirement in *.
  cbn [Spec.satisfied Spec.unmetLeaves Spec.holds Spec.scopes forallb map concat] in *.
  change (Str.includes (currentScopes st)) with (fun s => hasScope s st) in *.
  cbv beta in *.
  set (rd := js "accounts:read") in *. set (wr := js "accounts:write") in *.
  assert (Hne : rd <> wr) by (vm_compute; discriminate).
  clearbody rd wr.
  destruct (hasScope rd st) eqn:Hr, (hasScope wr st) eqn:Hw;
    cbn [negb orb andb fst snd failed isError text_result map app concat] in *.
  all: repeat match goal with |- _ /\ _ => split end.
  all: try reflexivity.
  all: try exact Hall.
  all: try (intuition congruence).
  all: intros s; split;
    [ cbn [In]; intros H; repeat destruct H as [<- | H]; try contradiction; split; auto
    | intros [[-> | ->] H]; try congruence; cbn [In]; auto ].
Qed.

Lemma updateClientScopes_replaces_witness :
  requires (js "_updateClientScopes") = None /\
  let '(r, st') := _updateClientScopes [js "admin:users:delete"] (main loaded) in
  isError r = None /\ failed r = false /\
  currentScopes st' = [js "admin:users:delete"] /\
  (forall s, hasScope s st' = true <-> In s [js "admin:users:delete"]) /\
  (forall s, hasScope s (main loaded) = true -> ~ In s [js "admin:users:delete"] ->
             hasScope s st' = false).
Proof. exact (updateClientScopes_replaces [js "admin:users:delete"] (main loaded)). Defined.

Lemma transferFunds_allOf_witness :
  let st := mkState [js "user:read"; js "accounts:write"] [] in
  let ctx := Spec.mkContext [] (currentScopes st) [] [] [] (fun _ => false) in
  let r := fst (transferFunds (js "A-1") (js "B-2") (int 25) st) in
  requires (js "transferFunds") = Some [transfer_requirement] /\
  snd (transferFunds (js "A-1") (js "B-2") (int 25) st) = st /\
  (failed r = false <->
     hasScope (js "accounts:read") st = true /\ hasScope (js "accounts:write") st = true) /\
  Spec.satisfied transfer_requirement ctx = negb (failed r) /\
  (Spec.satisfied transfer_requirement ctx = true <->
     forall c, In c [ReqPermission (Scope (js "accounts:read"));
                     ReqPermission (Scope (js "accounts:write"))] ->
               Spec.satisfied c ctx = true) /\
  (failed r = true ->
     r = text_result (js "❌ Access denied: Missing required scopes: "
                      ++ Str.join (js ", ") (missingScopes st)) (Some true)) /\
  (forall s, In s (missingScopes st) <->
             (s = js "accounts:read" \/ s = js "accounts:write") /\ hasScope s st = false) /\
  map (fun s => ReqPermission (Scope s)) (missingScopes st)
    = Spec.unmetLeaves transfer_requirement ctx.
Proof.
  exact (transferFunds_allOf (js "A-1") (js "B-2") (int 25)
           (mkState [js "user:read"; js "accounts:write"] [])
           [] [] [] [] (fun _ => false)).
Defined.

(** With only "accounts:write" held, the message names "accounts:read";
    with neither, both, in the order of the declaration. *)
Lemma transferFunds_messages :
  text <$> content (fst (transferFunds (js "A-1") (js "B-2") (int 25)
                           (mkState [js "user:read"; js "accounts:write"] [])))
  = [js "❌ Access denied: Missing required scopes: accounts:read"] /\
  text <$> content (fst (transferFunds (js "A-1") (js "B-2") (int 25) (main loaded)))
  = [js "❌ Access denied: Missing required scopes: accounts:read, accounts:write"] /\
  text <$> content (fst (transferFunds (js "A-1") (js "B-2") (int 25)
                           (mkState [js "accounts:read"; js "accounts:write"] [])))
  = [js "✅ Transferred $25 from A-1 to B-2"].
Proof. vm_compute. repeat split. Qed.

End OAuthTools.

(** ** [display.requirement] *)

Section DisplayFacts.
Import Display.






Lemma requirement_nonempty (req : Requirement) (indent : jsstring) :
  requirement req indent <> [].
Proof. destruct req; discriminate. Qed.

(** The loop over the children, each of which ends as [ends] says. *)
Lemma forEach_ends (room : nat) (indent : jsstring) (l : list Requirement) :
  Forall (fun r => forall room indent, ends room r indent (requirement_on_stack room r indent)) l ->
  match snd (forEach (fun r => requirement_on_stack room r indent) l) with
  | Returned =>
      (fold_right Nat.max O (map depth l) <= room)%nat /\
      fst (forEach (fun r => requirement_on_stack room r indent) l)
      = concat (map (fun r => requirement r indent) l)
  | RangeError =>
      (room < fold_right Nat.max O (map depth l))%nat /\
      exists rest, rest <> [] /\
        concat (map (fun r => requirement r indent) l)
        = fst (forEach (fun r => requirement_on_stack room r indent) l) ++ rest
  end.
Proof.
  induction 1 as [| r l Hr _ IH]; cbn [forEach map fold_right concat snd fst].
  - split; [lia | reflexivity].
  - specialize (Hr room indent). unfold ends in Hr.
    destruct (requirement_on_stack room r indent) as [lines [|]]; cbn [fst snd] in *.
    + destruct Hr as [Hd ->].
      destruct (forEach (fun r => requirement_on_stack room r indent) l) as [lines' [|]];
        cbn [fst snd] in *.
      * destruct IH as [Hm ->]. split; [lia | reflexivity].
      * destruct IH as [Hm (rest & Hne & ->)]. split; [lia |].
        exists rest. split; [exact Hne | now rewrite List.app_assoc].
    + destruct Hr as [Hd (rest & Hne & ->)]. split; [lia |].
      exists (rest ++ concat (map (fun r => requirement r indent) l)).
      split; [| now rewrite List.app_assoc].
      destruct rest; [now destruct Hne | discriminate].
Qed.

Lemma requirement_on_stack_ends (req : Requirement) :
  forall room indent, ends room req indent (requirement_on_stack room req indent).
Proof.
  induction req as [name | p | l IH | l IH | r IH] using Requirement_nested_ind;
    intros [| room] indent; unfold ends;
    cbn [requirement_on_stack requirement depth fst snd].
  - split; [lia |]. eexists. split; [| reflexivity]. discriminate.
  - split; [lia | reflexivity].
  - split; [lia |]. eexists. split; [| reflexivity]. discriminate.
  - split; [lia | reflexivity].
  - split; [lia |]. eexists. split; [| reflexivity]. discriminate.
  - pose proof (forEach_ends room (indent ++ js "    ") l IH) as H.
    destruct (forEach _ l) as [lines [|]]; cbn [fst snd] in *.
    + destruct H as [Hd ->]. split; [lia | reflexivity].
    + destruct H as [Hd (rest & Hne & ->)]. split; [lia |]. now exists rest.
  - split; [lia |]. eexists. split; [| reflexivity]. discriminate.
  - pose proof (forEach_ends room (indent ++ js "    ") l IH) as H.
    destruct (forEach _ l) as [lines [|]]; cbn [fst snd] in *.
    + destruct H as [Hd ->]. split; [lia | reflexivity].
    + destruct H as [Hd (rest & Hne & ->)]. split; [lia |]. now exists rest.
  - split; [lia |]. eexists. split; [| reflexivity]. discriminate.
  - specialize (IH room (indent ++ js "  ")). unfold ends in IH.
    destruct (requirement_on_stack room r _) as [lines [|]]; cbn [fst snd] in *.
    + destruct IH as [Hd ->]. split; [lia | reflexivity].
    + destruct IH as [Hd (rest & Hne & ->)]. split; [lia |]. now exists rest.
Qed.




End DisplayFacts.

(** ** UTF-8: decoding what was encoded *)

Section Utf8Facts.

Lemma lor_shiftl (a k r : N) : r < 2 ^ k -> N.lor (N.shiftl a k) r = 2 ^ k * a + r.
Proof.
  intros Hr.
  rewrite (N.div_mod' (N.lor (N.shiftl a k) r) (2 ^ k)).
  f_equal.
  - f_equal. rewrite <- N.shiftr_div_pow2, N.shiftr_lor, N.shiftr_shiftl_l by lia.
    rewrite N.sub_diag, N.shiftl_0_r, N.shiftr_div_pow2, N.div_small by assumption.
    apply N.lor_0_r.
  - rewrite <- N.land_ones, N.land_lor_distr_l, !N.land_ones.
    rewrite N.shiftl_mul_pow2, N.Div0.mod_mul.
    rewrite N.mod_small by assumption. apply N.lor_0_l.
Qed.

(** A continuation byte: its six payload bits. *)
Lemma continuation (r : N) :
  r < 64 -> N.lor 0x80 r = 0x80 + r /\ N.land (0x80 + r) 0x3F = r.
Proof.
  intros Hr. change 0x80 with (N.shiftl 2 6) at 1. rewrite (lor_shiftl 2 6 r) by exact Hr.
  split; [reflexivity |].
  change 0x3F with (N.ones 6). rewrite N.land_ones.
  change (2 ^ 6) with 64. change (2 ^ 6 * 2 + r) with (64 * 2 + r).
  change 0x80 with (2 * 64). rewrite N.add_comm, N.Div0.mod_add. now apply N.mod_small.
Qed.

(** A lead byte with [k] payload bits under the marker [h]. *)
Lemma lead_byte (h k q : N) :
  q < 2 ^ k -> N.lor (N.shiftl h k) q = 2 ^ k * h + q /\
               N.land (2 ^ k * h + q) (N.ones k) = q.
Proof.
  intros Hq. split; [now apply lor_shiftl |].
  rewrite N.land_ones, N.add_comm, N.mul_comm, N.Div0.mod_add. now apply N.mod_small.
Qed.

Lemma shift6 (a r : N) : r < 64 -> N.lor (N.shiftl a 6) r = 64 * a + r.
Proof. intros Hr. now rewrite (lor_shiftl a 6 r). Qed.

Lemma low6 (c : N) : N.land c 0x3F = c mod 64.
Proof. change 0x3F with (N.ones 6). now rewrite N.land_ones. Qed.

Lemma high (c k : N) : N.shiftr c k = c / 2 ^ k.
Proof. apply N.shiftr_div_pow2. Qed.

Lemma leb_true (a b : N) : a <= b -> (a <=? b) = true.
Proof. apply N.leb_le. Qed.

Lemma leb_false (a b : N) : b < a -> (a <=? b) = false.
Proof. apply N.leb_gt. Qed.

Lemma lead2 (q : N) :
  2 <= q < 32 -> Utf8.lead (N.lor 0xC0 q) = ([], Utf8.State q 1 0x80 0xBF).
Proof.
  intros Hq. destruct (lead_byte 6 5 q ltac:(cbn; lia)) as [B P].
  change (N.shiftl 6 5) with 0xC0 in B. change (2 ^ 5 * 6) with 0xC0 in *.
  change (N.ones 5) with 0x1F in P. rewrite B. unfold Utf8.lead, Utf8.between.
  rewrite leb_false, !leb_true by lia. cbn [andb]. now rewrite P.
Qed.

Lemma lead3 (a : N) :
  a < 16 ->
  Utf8.lead (N.lor 0xE0 a)
  = ([], Utf8.State a 2 (if a =? 0 then 0xA0 else 0x80) (if a =? 13 then 0x9F else 0xBF)).
Proof.
  intros Ha. destruct (lead_byte 14 4 a ltac:(cbn; lia)) as [B P].
  change (N.shiftl 14 4) with 0xE0 in B. change (2 ^ 4 * 14) with 0xE0 in *.
  change (N.ones 4) with 0x0F in P. rewrite B. unfold Utf8.lead, Utf8.between.
  rewrite leb_false by lia. rewrite (leb_true 0xC2), (leb_false (0xE0 + a) 0xDF) by lia.
  rewrite !leb_true by lia. cbn [andb]. rewrite P.
  replace (0xE0 + a =? 0xE0) with (a =? 0)
    by (destruct (N.eqb_spec a 0), (N.eqb_spec (0xE0 + a) 0xE0); lia || reflexivity).
  replace (0xE0 + a =? 0xED) with (a =? 13)
    by (destruct (N.eqb_spec a 13), (N.eqb_spec (0xE0 + a) 0xED); lia || reflexivity).
  reflexivity.
Qed.

Lemma lead4 (a : N) :
  a <= 4 ->
  Utf8.lead (N.lor 0xF0 a)
  = ([], Utf8.State a 3 (if a =? 0 then 0x90 else 0x80) (if a =? 4 then 0x8F else 0xBF)).
Proof.
  intros Ha. destruct (lead_byte 30 3 a ltac:(cbn; lia)) as [B P].
  change (N.shiftl 30 3) with 0xF0 in B. change (2 ^ 3 * 30) with 0xF0 in *.
  change (N.ones 3) with 0x07 in P. rewrite B. unfold Utf8.lead, Utf8.between.
  rewrite leb_false by lia. rewrite (leb_true 0xC2), (leb_false (0xF0 + a) 0xDF) by lia.
  rewrite (leb_true 0xE0), (leb_false (0xF0 + a) 0xEF) by lia.
  rewrite !leb_true by lia. cbn [andb]. rewrite P.
  replace (0xF0 + a =? 0xF0) with (a =? 0)
    by (destruct (N.eqb_spec a 0), (N.eqb_spec (0xF0 + a) 0xF0); lia || reflexivity).
  replace (0xF0 + a =? 0xF4) with (a =? 4)
    by (destruct (N.eqb_spec a 4), (N.eqb_spec (0xF0 + a) 0xF4); lia || reflexivity).
  reflexivity.
Qed.

(** A continuation byte in range extends the open sequence. *)
Lemma step_continuation (c r l h : N) (n : nat) :
  r < 64 -> l <= 0x80 + r <= h ->
  Utf8.step (Utf8.State c (S n) l h) (N.lor 0x80 r)
  = match n with
    | O => ([64 * c + r], Utf8.init)
    | S _ => ([], Utf8.State (64 * c + r) n 0x80 0xBF)
    end.
Proof.
  intros Hr Hrange. destruct (continuation r Hr) as [B P]. rewrite B.
  cbn [Utf8.step Utf8.need Utf8.lo Utf8.hi Utf8.cp]. unfold Utf8.between.
  rewrite !leb_true by lia. cbn [andb]. now rewrite P, shift6.
Qed.

Ltac digits c q r :=
  let E := fresh "E" in let L := fresh "L" in
  pose proof (N.div_mod' c 64) as E; pose proof (N.mod_lt c 64 ltac:(lia)) as L;
  set (q := c / 64) in *; set (r := c mod 64) in *; clearbody q r.

Lemma decode_encode1 (c : N) (rest : Buffer) :
  Utf8.valid c = true ->
  Utf8.run Utf8.init (Utf8.encode1 c ++ rest) = c :: Utf8.run Utf8.init rest.
Proof.
  unfold Utf8.valid. intros Hv. apply andb_prop in Hv as [Hmax Hsur]. apply N.ltb_lt in Hmax.
  apply negb_true_iff in Hsur. unfold Utf8.encode1. rewrite Hsur.
  unfold Utf8.between in Hsur. apply andb_false_iff in Hsur.
  assert (Hs : c < 0xD800 \/ 0xDFFF < c)
    by (destruct Hsur as [H | H]; apply N.leb_gt in H; lia).
  clear Hsur.
  replace (0x10FFFF <? c) with false by (symmetry; apply N.ltb_ge; lia). cbn [orb].
  destruct (c <=? 0x7F) eqn:C1.
  { cbn [app Utf8.run Utf8.step Utf8.init Utf8.need]. unfold Utf8.lead. now rewrite C1. }
  apply N.leb_gt in C1.
  destruct (c <=? 0x7FF) eqn:C2.
  { apply N.leb_le in C2. rewrite low6, (high c 6). change (2 ^ 6) with 64.
    digits c q r.
    cbn [app Utf8.run]. cbn [Utf8.step Utf8.init Utf8.need].
    rewrite lead2 by lia. cbn [app Utf8.run].
    rewrite step_continuation by lia. cbn [app]. f_equal. lia. }
  apply N.leb_gt in C2.
  destruct (c <=? 0xFFFF) eqn:C3.
  { apply N.leb_le in C3.
    replace (N.shiftr c 12) with (N.shiftr (N.shiftr c 6) 6) by (now rewrite N.shiftr_shiftr).
    rewrite !low6, !(high _ 6). change (2 ^ 6) with 64.
    digits c q r. digits q a m.
    cbn [app Utf8.run]. cbn [Utf8.step Utf8.init Utf8.need].
    rewrite lead3 by lia. cbn [app Utf8.run].
    rewrite step_continuation
      by (try lia; destruct (N.eqb_spec a 0), (N.eqb_spec a 13); lia).
    cbn [app Utf8.run]. rewrite step_continuation by lia. cbn [app]. f_equal. lia. }
  apply N.leb_gt in C3.
  replace (N.shiftr c 18) with (N.shiftr (N.shiftr (N.shiftr c 6) 6) 6)
    by (now rewrite !N.shiftr_shiftr).
  replace (N.shiftr c 12) with (N.shiftr (N.shiftr c 6) 6) by (now rewrite N.shiftr_shiftr).
  rewrite !low6, !(high _ 6). change (2 ^ 6) with 64.
  digits c q r. digits q q' m. digits q' a m'.
  cbn [app Utf8.run]. cbn [Utf8.step Utf8.init Utf8.need].
  rewrite lead4 by lia. cbn [app Utf8.run].
  rewrite step_continuation
    by (try lia; destruct (N.eqb_spec a 0), (N.eqb_spec a 4); lia).
  cbn [app Utf8.run]. rewrite step_continuation by lia.
  cbn [app Utf8.run]. rewrite step_continuation by lia. cbn [app]. f_equal. lia.
Qed.

Lemma decode_encode (s : jsstring) :
  forallb Utf8.valid s = true -> Utf8.decode (Utf8.encode s) = s.
Proof.
  unfold Utf8.decode, Utf8.encode. induction s as [| c s IH]; cbn [forallb map concat]; intros H.
  - reflexivity.
  - apply andb_prop in H as [Hc Hs]. rewrite decode_encode1 by assumption.
    now rewrite IH.
Qed.

End Utf8Facts.

(** ** Framing: [split], [pop] and the retained buffer *)

Section Framing.
Import Client.

Lemma split_nonempty (sep : N) (s : jsstring) : Str.split sep s <> [].
Proof.
  destruct s as [| c s]; cbn [Str.split]; [discriminate |].
  destruct (c =? sep); [discriminate |]. destruct (Str.split sep s); discriminate.
Qed.

Lemma split_line (l x : jsstring) :
  no_newline l = true -> Str.split 10 (nl l ++ x) = l :: Str.split 10 x.
Proof.
  unfold nl. induction l as [| c l IH]; cbn [no_newline forallb app Str.split]; intros H.
  - reflexivity.
  - apply andb_prop in H as [Hc Hl]. apply negb_true_iff in Hc. rewrite Hc.
    unfold no_newline in IH. rewrite (IH Hl). reflexivity.
Qed.

Lemma split_lines (ls : list jsstring) (x : jsstring) :
  forallb no_newline ls = true ->
  Str.split 10 (concat (map nl ls) ++ x) = ls ++ Str.split 10 x.
Proof.
  induction ls as [| l ls IH]; cbn [forallb map concat app]; intros H; [reflexivity |].
  apply andb_prop in H as [Hl Hls].
  rewrite <- List.app_assoc, split_line by assumption. now rewrite IH.
Qed.

Lemma removelast_app_nonempty {A} (xs ys : list A) :
  ys <> [] -> List.removelast (xs ++ ys) = xs ++ List.removelast ys.
Proof. intros H. now apply List.removelast_app. Qed.

Lemma last_app_nonempty {A} (xs ys : list A) (d : A) :
  ys <> [] -> List.last (xs ++ ys) d = List.last ys d.
Proof.
  intros H. induction xs as [| x xs IH]; [reflexivity |].
  cbn [app]. destruct (xs ++ ys) eqn:E.
  - apply app_eq_nil in E as [_ E]. contradiction.
  - rewrite <- IH. reflexivity.
Qed.

Lemma take_lines_lines (ls : list jsstring) (x : jsstring) :
  forallb no_newline ls = true ->
  take_lines (concat (map nl ls) ++ x)
  = (ls ++ fst (take_lines x), snd (take_lines x)).
Proof.
  intros H. unfold take_lines. cbn [fst snd]. rewrite split_lines by assumption.
  rewrite removelast_app_nonempty, last_app_nonempty by apply split_nonempty.
  reflexivity.
Qed.

(** Every text is its complete lines followed by its unfinished rest. *)
Lemma take_lines_spec (s : jsstring) :
  s = concat (map nl (fst (take_lines s))) ++ snd (take_lines s)
  /\ forallb no_newline (fst (take_lines s)) = true
  /\ no_newline (snd (take_lines s)) = true.
Proof.
  unfold take_lines. cbn [fst snd].
  induction s as [| c s (IH1 & IH2 & IH3)]; [now cbn |].
  cbn [Str.split]. destruct (c =? 10) eqn:Hc.
  - apply N.eqb_eq in Hc. subst c.
    pose proof (split_nonempty 10 s) as Hne.
    destruct (Str.split 10 s) as [| l ls] eqn:E; [contradiction |].
    cbn [List.removelast List.last map concat forallb] in *.
    repeat split; try assumption. cbn. now f_equal.
  - pose proof (split_nonempty 10 s) as Hne.
    destruct (Str.split 10 s) as [| l ls] eqn:E; [contradiction |].
    destruct ls as [| l' ls].
    + cbn [List.removelast List.last map concat forallb app no_newline] in *.
      rewrite Hc. repeat split; try assumption. now f_equal.
    + cbn [List.removelast List.last map concat forallb app] in *.
      apply andb_prop in IH2 as [Hl Hls].
      repeat split; try assumption.
      * unfold nl in *. cbn [app]. now f_equal.
      * cbn [no_newline forallb]. rewrite Hc. cbn [negb andb].
        apply andb_true_intro. split; assumption.
Qed.

Lemma take_lines_rest (b : jsstring) :
  no_newline b = true -> take_lines b = ([], b).
Proof.
  intros H. unfold take_lines.
  assert (E : Str.split 10 b = [b]); [| now rewrite E].
  induction b as [| c b IH]; [reflexivity |].
  cbn [no_newline forallb] in H. apply andb_prop in H as [Hc Hb].
  apply negb_true_iff in Hc. cbn [Str.split]. rewrite Hc, (IH Hb). reflexivity.
Qed.

(** Chunk boundaries do not matter to the text: feeding the chunks one by
    one gives the lines and the rest of their concatenation. *)
Lemma feed_concat (chunks : list jsstring) :
  forall b,
    no_newline b = true ->
    feed b chunks
    = (filter nonblank (fst (take_lines (b ++ concat chunks))),
       snd (take_lines (b ++ concat chunks))).
Proof.
  induction chunks as [| c cs IH]; intros b Hb; cbn [feed concat].
  - rewrite List.app_nil_r, take_lines_rest by assumption. reflexivity.
  - destruct (take_lines_spec (b ++ c)) as (Hbc & Hl & Hr).
    destruct (take_lines (b ++ c)) as [ls r]. cbn [fst snd] in *.
    rewrite (IH r Hr).
    rewrite List.app_assoc, Hbc, <- List.app_assoc, take_lines_lines by assumption.
    cbn [fst snd]. now rewrite List.filter_app.
Qed.

End Framing.

(** ** [JSON.stringify] writes one non-blank line *)

Section StringifyFacts.
Import Client.

Lemma no_newline_Forall (s : jsstring) :
  no_newline s = true <-> Forall (fun c => c <> 10) s.
Proof.
  unfold no_newline. rewrite forallb_forall, List.Forall_forall.
  split; intros H c Hc; specialize (H c Hc).
  - apply negb_true_iff, N.eqb_neq in H. exact H.
  - now apply negb_true_iff, N.eqb_neq.
Qed.

Lemma Forall_join (P : N -> Prop) (sep : jsstring) (xs : list jsstring) :
  Forall P sep -> Forall (Forall P) xs -> Forall P (Str.join sep xs).
Proof.
  intros Hsep. induction 1 as [| x xs Hx Hxs IH]; [constructor |].
  cbn [Str.join]. destruct xs as [| y ys]; [assumption |].
  apply Forall_app. split; [assumption |]. apply Forall_app. split; assumption.
Qed.

Lemma uint_chars_digits (u : Decimal.uint) :
  Forall (fun c => 48 <= c <= 57) (Json.uint_chars u).
Proof. induction u; cbn [Json.uint_chars]; constructor; (lia || assumption). Qed.

Lemma digits_nonempty (n : N) : Json.digits n <> [].
Proof.
  unfold Json.digits. destruct n as [| p]; [discriminate |].
  cbn [N.to_uint]. pose proof (DecimalPos.Unsigned.to_uint_nonnil p) as H.
  destruct (Pos.to_uint p); (contradiction || discriminate).
Qed.

Lemma number_to_string_chars (n : number) :
  Forall (fun c => 45 <= c <= 57) (Json.number_to_string n).
Proof.
  destruct n as [m e]. unfold Json.number_to_string.
  assert (Hd : Forall (fun c => 45 <= c <= 57) (Json.digits (Z.abs_N m))).
  { eapply List.Forall_impl; [| apply uint_chars_digits]. cbv beta. intros; lia. }
  assert (Hs : Forall (fun c => 45 <= c <= 57) (if (m <? 0)%Z then [45] else [])).
  { destruct (m <? 0)%Z; repeat constructor; lia. }
  destruct (e =? 0).
  - apply Forall_app; split; assumption.
  - set (ds' := repeat 48 _ ++ _).
    assert (Hds : Forall (fun c => 45 <= c <= 57) ds').
    { apply Forall_app; split; [| assumption].
      apply List.Forall_forall. intros c Hc. apply repeat_spec in Hc. lia. }
    apply Forall_app; split; [assumption |].
    apply Forall_app; split; [now apply Forall_take |].
    apply Forall_app; split; [repeat constructor; lia | now apply Forall_drop].
Qed.

Lemma number_to_string_nonempty (n : number) : Json.number_to_string n <> [].
Proof.
  destruct n as [m e]. unfold Json.number_to_string.
  pose proof (digits_nonempty (Z.abs_N m)) as Hd.
  destruct (e =? 0).
  - destruct (m <? 0)%Z; [discriminate |]. exact Hd.
  - intros H. apply app_eq_nil in H as [_ H]. apply app_eq_nil in H as [_ H].
    discriminate H.
Qed.

Lemma hex_digit_ne (d : N) : Json.hex_digit d <> 10.
Proof. unfold Json.hex_digit. destruct (d <? 10); lia. Qed.

Lemma quote_char_no_newline (c : N) : Forall (fun x => x <> 10) (Json.quote_char c).
Proof.
  unfold Json.quote_char, Json.hex4.
  repeat match goal with
         | |- context [if ?b then _ else _] => destruct b eqn:?
         end;
    repeat constructor; try (apply hex_digit_ne); try lia.
  now apply N.eqb_neq.
Qed.

Lemma quote_no_newline (s : jsstring) : Forall (fun x => x <> 10) (Json.quote s).
Proof.
  unfold Json.quote. apply Forall_app; split; [repeat constructor; lia |].
  apply Forall_app; split; [| repeat constructor; lia].
  apply Forall_concat, Forall_map, List.Forall_forall. intros c _. apply quote_char_no_newline.
Qed.

(** The text of a message holds no newline. *)
Lemma stringify_no_newline (v : JSON) : no_newline (Json.stringify v) = true.
Proof.
  apply no_newline_Forall.
  induction v as [| b | n | s | xs IH | fields IH] using JSON_nested_ind;
    cbn [Json.stringify].
  - now apply no_newline_Forall.
  - destruct b; now apply no_newline_Forall.
  - eapply List.Forall_impl; [| apply number_to_string_chars]. cbv beta. intros; lia.
  - apply quote_no_newline.
  - apply Forall_app; split; [repeat constructor; lia |].
    apply Forall_app; split; [| repeat constructor; lia].
    apply Forall_join; [repeat constructor; lia | now apply Forall_map].
  - apply Forall_app; split; [repeat constructor; lia |].
    apply Forall_app; split; [| repeat constructor; lia].
    apply Forall_join; [repeat constructor; lia |].
    apply Forall_map. eapply List.Forall_impl; [| exact IH]. cbv beta.
    intros kv Hkv. apply Forall_app; split; [apply quote_no_newline |].
    apply Forall_app; split; [repeat constructor; lia | exact Hkv].
Qed.

Lemma trimStart_In (c : N) (s : jsstring) :
  In c s -> Str.is_space c = false -> In c (Str.trimStart s).
Proof.
  intros Hin Hc. induction s as [| a s IH]; [contradiction |].
  cbn [Str.trimStart]. destruct (Str.is_space a) eqn:Ha; [| exact Hin].
  destruct Hin as [-> | Hin]; [congruence | now apply IH].
Qed.

(** A line with a character that is not white space passes [line.trim()]. *)
Lemma nonblank_intro (c : N) (s : jsstring) :
  In c s -> Str.is_space c = false -> nonblank s = true.
Proof.
  intros Hin Hc. unfold nonblank, Str.trim.
  assert (H : In c (rev (Str.trimStart (rev (Str.trimStart s))))).
  { apply List.in_rev. rewrite List.rev_involutive. apply trimStart_In; [| assumption].
    apply -> List.in_rev. now apply trimStart_In. }
  destruct (rev _); [contradiction | reflexivity].
Qed.

Lemma stringify_nonblank (v : JSON) : nonblank (Json.stringify v) = true.
Proof.
  destruct v as [| b | n | s | xs | fields]; cbn [Json.stringify].
  - reflexivity.
  - destruct b; reflexivity.
  - pose proof (number_to_string_chars n) as Hc.
    pose proof (number_to_string_nonempty n) as Hne.
    destruct (Json.number_to_string n) as [| c r]; [contradiction |].
    apply (nonblank_intro c); [now left |].
    apply List.Forall_inv in Hc. cbv beta in Hc. unfold Str.is_space.
    repeat (apply orb_false_intro); try (apply N.eqb_neq; lia).
    apply andb_false_intro1. apply N.leb_gt. lia.
  - apply (nonblank_intro 0x22); [now left | reflexivity].
  - apply (nonblank_intro 0x5B); [now left | reflexivity].
  - apply (nonblank_intro 0x7B); [now left | reflexivity].
Qed.

(** Text-level round trip: however the text of the serialized messages is
    cut into chunks, the lines given to [processLine] are the texts of the
    messages, in order, and nothing stays in the buffer. *)
Lemma feed_roundtrip (msgs : list JSON) (chunks : list jsstring) :
  concat chunks = concat (map (fun m => nl (Json.stringify m)) msgs) ->
  feed [] chunks = (map Json.stringify msgs, []).
Proof.
  intros H. rewrite feed_concat by reflexivity. cbn [app]. rewrite H.
  replace (concat (map (fun m => nl (Json.stringify m)) msgs))
    with (concat (map nl (map Json.stringify msgs)) ++ [])
    by (now rewrite List.app_nil_r, List.map_map).
  rewrite take_lines_lines.
  - cbn [fst snd take_lines Str.split List.removelast List.last].
    rewrite List.app_nil_r. f_equal. clear H.
    induction msgs as [| m msgs IH]; [reflexivity |].
    cbn [map filter]. rewrite stringify_nonblank. now f_equal.
  - apply forallb_forall. intros l Hl. apply in_map_iff in Hl as (m & <- & _).
    apply stringify_no_newline.
Qed.

End StringifyFacts.

(** ** [JSON.parse] never fails for lack of fuel *)

Section ParserFuel.
Import Json.

Lemma skip_ws_le (s : jsstring) : (length (skip_ws s) <= length s)%nat.
Proof.
  induction s as [| c s IH]; cbn [skip_ws length]; [lia |].
  destruct (is_ws c); cbn [length]; lia.
Qed.

Lemma push_Some (c : N) (r : option (jsstring * jsstring)) (str rest : jsstring) :
  push c r = Some (str, rest) -> exists str', r = Some (str', rest) /\ str = c :: str'.
Proof.
  destruct r as [[str' rest'] |]; cbn [push]; [| discriminate].
  intros H. injection H as <- <-. eauto.
Qed.

Lemma parse_chars_lt (n : nat) :
  forall s str r, (length s <= n)%nat -> parse_chars s = Some (str, r) ->
                  (length r < length s)%nat.
Proof.
  induction n as [| n IH]; intros s str r Hn H.
  - destruct s; [discriminate H | cbn in Hn; lia].
  - destruct s as [| c s]; [discriminate H |]. cbn [parse_chars] in H. cbn [length] in *.
    destruct (c =? 0x22); [injection H as <- <-; lia |].
    destruct (c =? 0x5C).
    + destruct s as [| x s1]; [discriminate H |]. cbn [length] in *.
      destruct (x =? 0x75).
      * destruct s1 as [| h3 [| h2 [| h1 [| h0 r2]]]]; try discriminate H.
        destruct (hex_val h3), (hex_val h2), (hex_val h1), (hex_val h0); try discriminate H.
        apply push_Some in H as (str' & H & _). cbn [length] in *.
        apply IH in H; lia.
      * destruct (simple_escape x); [| discriminate H].
        apply push_Some in H as (str' & H & _). apply IH in H; lia.
    + destruct (c <? 0x20); [discriminate H |].
      apply push_Some in H as (str' & H & _). apply IH in H; lia.
Qed.

Lemma parse_string_lt (s str r : jsstring) :
  parse_string s = Some (str, r) -> (length r < length s)%nat.
Proof.
  unfold parse_string. destruct (parse_chars s) as [[str' r'] |] eqn:E; [| discriminate].
  intros H. injection H as _ <-. now apply (parse_chars_lt (length s)) in E.
Qed.

Lemma take_digits_le (s : jsstring) :
  (length (snd (take_digits s)) <= length s)%nat /\
  (fst (take_digits s) <> [] -> (length (snd (take_digits s)) < length s)%nat).
Proof.
  induction s as [| c s [IH1 IH2]]; cbn [take_digits fst snd length]; [split; [lia | congruence] |].
  destruct (digit_val c); [| cbn; split; [lia | congruence]].
  destruct (take_digits s) as [ds rest]. cbn [fst snd] in *. split; intros; lia.
Qed.

Lemma eat_length (w s r : jsstring) :
  eat w s = Some r -> length s = (length w + length r)%nat.
Proof.
  revert s. induction w as [| c w IH]; intros s H; cbn [eat] in H.
  - now injection H as <-.
  - destruct s as [| d s]; [discriminate H |]. destruct (c =? d); [| discriminate H].
    cbn [length]. now rewrite (IH _ H).
Qed.

Lemma parse_number_lt (s : jsstring) (n : number) (r : jsstring) :
  parse_number s = Some (n, r) -> (length r < length s)%nat.
Proof.
  unfold parse_number.
  set (p := match s with c :: t => if c =? 45 then (true, t) else (false, s) | [] => (false, s) end).
  assert (Hp : (length (snd p) <= length s)%nat).
  { unfold p. destruct s as [| c t]; [cbn; lia |]. destruct (c =? 45); cbn; lia. }
  destruct p as [neg s1]. cbn [snd] in Hp.
  destruct (take_int s1) as [[ip s2] |] eqn:Hint; [| discriminate].
  assert (H2 : (length s2 < length s1)%nat).
  { unfold take_int in Hint. destruct s1 as [| c s1']; [discriminate |].
    destruct (c =? 48); [injection Hint as _ <-; cbn; lia |].
    pose proof (take_digits_le (c :: s1')) as [_ Hd].
    destruct (take_digits (c :: s1')) as [[| d ds] rest]; [discriminate |].
    injection Hint as _ <-. cbn [fst snd] in Hd. apply Hd. discriminate. }
  destruct (take_frac s2) as [[fp s3] |] eqn:Hfrac; [| discriminate].
  assert (H3 : (length s3 <= length s2)%nat).
  { unfold take_frac in Hfrac. destruct s2 as [| c s2']; [injection Hfrac as _ <-; lia |].
    destruct (c =? 46); [| injection Hfrac as _ <-; lia].
    pose proof (take_digits_le s2') as [Hd _].
    destruct (take_digits s2') as [[| d ds] rest]; [discriminate |].
    injection Hfrac as _ <-. cbn [snd length] in *. lia. }
  destruct (take_exp s3) as [[ex s4] |] eqn:Hexp; [| discriminate].
  assert (H4 : (length s4 <= length s3)%nat).
  { unfold take_exp in Hexp. destruct s3 as [| c s3']; [injection Hexp as _ <-; lia |].
    destruct ((c =? 101) || (c =? 69)); [| injection Hexp as _ <-; lia].
    set (q := match s3' with
              | x :: t => if x =? 45 then (true, t) else if x =? 43 then (false, t) else (false, s3')
              | [] => (false, s3')
              end) in Hexp.
    assert (Hq : (length (snd q) <= length s3')%nat).
    { unfold q. destruct s3' as [| x t]; [cbn; lia |].
      destruct (x =? 45); [cbn; lia |]. destruct (x =? 43); cbn; lia. }
    destruct q as [neg' s'']. cbn [snd] in Hq.
    pose proof (take_digits_le s'') as [Hd _].
    destruct (take_digits s'') as [[| d ds] rest]; [discriminate |].
    injection Hexp as _ <-. cbn [snd length] in *. lia. }
  intros H. injection H as _ <-. lia.
Qed.

Lemma parse_fuel (f : nat) :
  (forall s v r, parse_value f s = Some (v, r) ->
     (length r < length s)%nat /\
     forall f', (2 * (length s - length r) <= f')%nat -> parse_value f' s = Some (v, r)) /\
  (forall s acc v r, parse_elements f s acc = Some (v, r) ->
     (length r < length s)%nat /\
     forall f', (2 * (length s - length r) <= f')%nat ->
                parse_elements f' s acc = Some (v, r)) /\
  (forall s acc v r, parse_members f s acc = Some (v, r) ->
     (length r < length s)%nat /\
     forall f', (2 * (length s - length r) <= f')%nat ->
                parse_members f' s acc = Some (v, r)).
Proof.
  induction f as [| f (IHv & IHe & IHm)]; [repeat split; discriminate |].
  split; [| split].
  - intros s v r H. cbn [parse_value] in H.
    pose proof (skip_ws_le s) as Hws.
    destruct (skip_ws s) as [| c r0] eqn:Hs; [discriminate H |]. cbn [length] in Hws.
    destruct (c =? 0x22) eqn:C1.
    { destruct (parse_string r0) as [[str rest] |] eqn:E; [| discriminate H].
      injection H as <- <-. apply parse_string_lt in E as Hlt.
      split; [lia |]. intros [| f'] Hf'; [lia |].
      cbn [parse_value]. now rewrite Hs, C1, E. }
    destruct (c =? 0x5B) eqn:C2.
    { pose proof (skip_ws_le r0) as Hws'.
      destruct (skip_ws r0) as [| c' r'] eqn:Hs'; [discriminate H |]. cbn [length] in Hws'.
      destruct (c' =? 0x5D) eqn:C3.
      - injection H as <- <-. split; [lia |]. intros [| f'] Hf'; [lia |].
        cbn [parse_value]. now rewrite Hs, C1, C2, Hs', C3.
      - apply IHe in H as [Hlt Hfuel]. cbn [length] in *. split; [lia |].
        intros [| f'] Hf'; [lia |].
        cbn [parse_value]. rewrite Hs, C1, C2, Hs', C3. apply Hfuel. cbn [length]. lia. }
    destruct (c =? 0x7B) eqn:C4.
    { pose proof (skip_ws_le r0) as Hws'.
      destruct (skip_ws r0) as [| c' r'] eqn:Hs'; [discriminate H |]. cbn [length] in Hws'.
      destruct (c' =? 0x7D) eqn:C3.
      - injection H as <- <-. split; [lia |]. intros [| f'] Hf'; [lia |].
        cbn [parse_value]. now rewrite Hs, C1, C2, C4, Hs', C3.
      - apply IHm in H as [Hlt Hfuel]. cbn [length] in *. split; [lia |].
        intros [| f'] Hf'; [lia |].
        cbn [parse_value]. rewrite Hs, C1, C2, C4, Hs', C3. apply Hfuel. cbn [length]. lia. }
    destruct (c =? 0x6E) eqn:C5.
    { destruct (eat (js "null") (c :: r0)) as [rest |] eqn:E; [| discriminate H].
      injection H as <- <-. apply eat_length in E as Hlen.
      change (length (js "null")) with 4%nat in Hlen. cbn [length] in Hlen.
      split; [lia |]. intros [| f'] Hf'; [lia |].
      cbn [parse_value]. now rewrite Hs, C1, C2, C4, C5, E. }
    destruct (c =? 0x74) eqn:C6.
    { destruct (eat (js "true") (c :: r0)) as [rest |] eqn:E; [| discriminate H].
      injection H as <- <-. apply eat_length in E as Hlen.
      change (length (js "true")) with 4%nat in Hlen. cbn [length] in Hlen.
      split; [lia |]. intros [| f'] Hf'; [lia |].
      cbn [parse_value]. now rewrite Hs, C1, C2, C4, C5, C6, E. }
    destruct (c =? 0x66) eqn:C7.
    { destruct (eat (js "false") (c :: r0)) as [rest |] eqn:E; [| discriminate H].
      injection H as <- <-. apply eat_length in E as Hlen.
      change (length (js "false")) with 5%nat in Hlen. cbn [length] in Hlen.
      split; [lia |]. intros [| f'] Hf'; [lia |].
      cbn [parse_value]. now rewrite Hs, C1, C2, C4, C5, C6, C7, E. }
    destruct (parse_number (c :: r0)) as [[n rest] |] eqn:E; [| discriminate H].
    injection H as <- <-. apply parse_number_lt in E as Hlt. cbn [length] in Hlt.
    split; [lia |]. intros [| f'] Hf'; [lia |].
    cbn [parse_value]. now rewrite Hs, C1, C2, C4, C5, C6, C7, E.
  - intros s acc v r H. cbn [parse_elements] in H.
    destruct (parse_value f s) as [[v0 r1] |] eqn:Ev; [| discriminate H].
    apply IHv in Ev as [Hlt1 Hfuel1].
    pose proof (skip_ws_le r1) as Hws.
    destruct (skip_ws r1) as [| c r'] eqn:Hs; [discriminate H |]. cbn [length] in Hws.
    destruct (c =? 0x2C) eqn:C1.
    { apply IHe in H as [Hlt Hfuel]. split; [lia |].
      intros [| f'] Hf'; [lia |]. cbn [parse_elements].
      rewrite Hfuel1 by lia. rewrite Hs, C1. apply Hfuel. lia. }
    destruct (c =? 0x5D) eqn:C2; [| discriminate H].
    injection H as <- <-. split; [lia |].
    intros [| f'] Hf'; [lia |]. cbn [parse_elements].
    rewrite Hfuel1 by lia. now rewrite Hs, C1, C2.
  - intros s acc v r H. cbn [parse_members] in H.
    pose proof (skip_ws_le s) as Hws0.
    destruct (skip_ws s) as [| q s1] eqn:Hs0; [discriminate H |]. cbn [length] in Hws0.
    destruct (q =? 0x22) eqn:C0; [| discriminate H].
    destruct (parse_string s1) as [[k s2] |] eqn:Ek; [| discriminate H].
    apply parse_string_lt in Ek as Hltk.
    pose proof (skip_ws_le s2) as Hws2.
    destruct (skip_ws s2) as [| colon s3] eqn:Hs2; [discriminate H |]. cbn [length] in Hws2.
    destruct (colon =? 0x3A) eqn:C3; [| discriminate H].
    destruct (parse_value f s3) as [[v0 r1] |] eqn:Ev; [| discriminate H].
    apply IHv in Ev as [Hlt1 Hfuel1].
    pose proof (skip_ws_le r1) as Hws.
    destruct (skip_ws r1) as [| c r'] eqn:Hs; [discriminate H |]. cbn [length] in Hws.
    destruct (c =? 0x2C) eqn:C1.
    { apply IHm in H as [Hlt Hfuel]. split; [lia |].
      intros [| f'] Hf'; [lia |]. cbn [parse_members].
      rewrite Hs0, C0, Ek, Hs2, C3. rewrite Hfuel1 by lia. rewrite Hs, C1. apply Hfuel. lia. }
    destruct (c =? 0x7D) eqn:C2; [| discriminate H].
    injection H as <- <-. split; [lia |].
    intros [| f'] Hf'; [lia |]. cbn [parse_members].
    rewrite Hs0, C0, Ek, Hs2, C3. rewrite Hfuel1 by lia. now rewrite Hs, C1, C2.
Qed.

(** The fuel [JSON.parse] starts with is enough: a text that parses with
    some amount of fuel parses, to the same value, with that amount. *)
Theorem parse_fuel_enough (f : nat) (text : jsstring) (v : JSON) (rest : jsstring) :
  parse_value f text = Some (v, rest) ->
  parse_value (2 * length text + 2) text = Some (v, rest).
Proof.
  intros H. apply (parse_fuel f) in H as [Hlt Hfuel]. apply Hfuel. lia.
Qed.

(** So [Json.parse] accepts every text that some amount of fuel reads to
    the end. *)
Corollary parse_complete (f : nat) (text : jsstring) (v : JSON) (rest : jsstring) :
  parse_value f text = Some (v, rest) -> skip_ws rest = [] -> Json.parse text = Some v.
Proof.
  intros H Hrest. unfold Json.parse. now rewrite (parse_fuel_enough f text v rest H), Hrest.
Qed.

End ParserFuel.

(** ** The handler as a state machine *)

Section Machine.
Import Client.

Lemma processLine_unfold (line : jsstring) (st : State) :
  processLine line st =
  match Json.parse line with
  | None => st
  | Some v =>
      match v with
      | JNull =>
          print (Error (js "Error processing response: Cannot read properties of null (reading 'id')"))
                (validated v st)
      | _ =>
          match target v (validated v st) with
          | Some h => call_handler h v (validated v st)
          | None => validated v st
          end
      end
  end.
Proof.
  unfold processLine, validated, validators_jsonrpc, validators_error, target.
  destruct (Json.parse line) as [v |]; [| reflexivity].
  destruct (JSONRPCResponseSchema v); [| destruct (JSONRPCErrorSchema v)];
    destruct v; reflexivity.
Qed.

Lemma target_validated (v : JSON) (st : State) : target v (validated v st) = target v st.
Proof.
  unfold validated.
  destruct (JSONRPCResponseSchema v); [| destruct (JSONRPCErrorSchema v)];
    destruct v; cbn [target]; try reflexivity;
    unfold handlers_get; destruct (routing_key _) as [[] |]; reflexivity.
Qed.

(** What [validated] leaves alone. *)
Lemma validated_frame (v : JSON) (st : State) :
  buffer (validated v st) = buffer st /\ handlers (validated v st) = handlers st /\
  stdin (validated v st) = stdin st /\ timers (validated v st) = timers st /\
  promises (validated v st) = promises st /\ settled (validated v st) = settled st /\
  calls (validated v st) = calls st.
Proof.
  unfold validated.
  destruct (JSONRPCResponseSchema v); [| destruct (JSONRPCErrorSchema v)];
    repeat split; reflexivity.
Qed.

(** *** Promises: settled once *)

Lemma settle_other (q : nat) (o : Promise) (st : State) :
  promises st !! q <> Some Pending -> settle q o st = st.
Proof.
  unfold settle. intros H.
  destruct (promises st !! q) as [[] |]; try reflexivity. now destruct H.
Qed.

Lemma settle_pending (q : nat) (o : Promise) (st : State) :
  promises st !! q = Some Pending ->
  settle q o st = set_promises (<[q := o]> (promises st)) (settled st ++ [(q, o)]) st.
Proof. unfold settle. now intros ->. Qed.

Lemma outcomes_app (p : nat) (st : State) (q : nat) (o : Promise) (ps : list Promise) :
  outcomes p (set_promises ps (settled st ++ [(q, o)]) st)
  = outcomes p st ++ (if Nat.eqb q p then [o] else []).
Proof.
  unfold outcomes. cbn [settled set_promises].
  rewrite List.filter_app, List.map_app. cbn [filter fst].
  destruct (Nat.eqb q p); reflexivity.
Qed.

Lemma continues_refl (st : State) : continues st st.
Proof. split; auto. Qed.

Lemma continues_trans (a b c : State) : continues a b -> continues b c -> continues a c.
Proof. intros [H1 H2] [H3 H4]. split; [auto |]. intros p o Hp Ho. eauto. Qed.

Lemma continues_same (st st' : State) :
  promises st' = promises st -> settled st' = settled st -> continues st st'.
Proof.
  intros Hp Hs. split.
  - unfold consistent, outcomes. now rewrite Hp, Hs.
  - intros p o. now rewrite Hp.
Qed.

Lemma continues_settle (q : nat) (o : Promise) (st : State) :
  o <> Pending -> continues st (settle q o st).
Proof.
  intros Ho.
  destruct (promises st !! q) as [[] |] eqn:Hq;
    try (rewrite settle_other by congruence; apply continues_refl).
  rewrite settle_pending by assumption.
  pose proof (lookup_lt_Some _ _ _ Hq) as Hlt.
  split.
  - intros Hc p. rewrite outcomes_app, (Hc p). cbn [promises set_promises].
    destruct (Nat.eqb q p) eqn:E.
    + apply Nat.eqb_eq in E. subst p. rewrite Hq, list_lookup_insert_eq by assumption.
      destruct o; [now destruct Ho | reflexivity | reflexivity].
    + apply Nat.eqb_neq in E. rewrite list_lookup_insert_ne by assumption.
      now rewrite List.app_nil_r.
  - intros p o' Hp Ho'. cbn [promises set_promises].
    rewrite list_lookup_insert_ne; [assumption | congruence].
Qed.

Lemma continues_alloc (st st' : State) :
  promises st' = promises st ++ [Pending] -> settled st' = settled st -> continues st st'.
Proof.
  intros Hp Hs. split.
  - intros Hc p. unfold outcomes. rewrite Hs, Hp.
    fold (outcomes p st). rewrite (Hc p).
    destruct (promises st !! p) as [o |] eqn:E.
    + now rewrite (lookup_app_l_Some _ _ _ _ E).
    + apply lookup_ge_None in E.
      destruct (decide (p = length (promises st))) as [-> | Hne].
      * now rewrite list_lookup_middle.
      * rewrite lookup_ge_None_2; [reflexivity |]. rewrite List.length_app. cbn. lia.
  - intros p o Hlook _. rewrite Hp. now apply lookup_app_l_Some.
Qed.

Lemma continues_clearTimeout (t : nat) (st : State) : continues st (clearTimeout t st).
Proof.
  unfold clearTimeout. destruct (timers st !! t) as [tm |]; [| apply continues_refl].
  destruct (t_state tm); (apply continues_refl || now apply continues_same).
Qed.

Lemma continues_call_handler (h : Handler) (v : JSON) (st : State) :
  continues st (call_handler h v st).
Proof.
  unfold call_handler. destruct h as [t p | name [| [] message]].
  - eapply continues_trans; [| apply continues_settle; discriminate].
    eapply continues_trans; [| apply continues_clearTimeout].
    now apply continues_same.
  - now apply continues_same.
  - now apply continues_same.
  - now apply continues_same.
Qed.

Lemma continues_validated (v : JSON) (st : State) : continues st (validated v st).
Proof. destruct (validated_frame v st) as (_ & _ & _ & _ & Hp & Hs & _). now apply continues_same. Qed.

Lemma continues_processLine (line : jsstring) (st : State) :
  continues st (processLine line st).
Proof.
  rewrite processLine_unfold. destruct (Json.parse line) as [v |]; [| apply continues_refl].
  eapply continues_trans; [apply (continues_validated v) |].
  destruct v; try (now apply continues_same);
    (destruct (target _ _); [apply continues_call_handler | apply continues_refl]).
Qed.

Lemma continues_fold (f : State -> jsstring -> State) (ls : list jsstring) :
  (forall st l, continues st (f st l)) ->
  forall st, continues st (fold_left f ls st).
Proof.
  intros Hf. induction ls as [| l ls IH]; intros st; [apply continues_refl |].
  cbn [fold_left]. eapply continues_trans; [apply Hf | apply IH].
Qed.

Lemma continues_handleData (data : Buffer) (st : State) : continues st (handleData data st).
Proof.
  unfold handleData. eapply continues_trans; [| apply continues_fold].
  - now apply continues_same.
  - intros s l. destruct (Str.truthy _); [apply continues_processLine | apply continues_refl].
Qed.

Lemma continues_timer_fires (t : nat) (st : State) : continues st (timer_fires t st).
Proof.
  unfold timer_fires. destruct (timers st !! t) as [tm |]; [| apply continues_refl].
  destruct (t_state tm); try apply continues_refl.
  eapply continues_trans; [| apply continues_settle; discriminate].
  now apply continues_same.
Qed.

Lemma continues_step (st : State) (e : Event) : continues st (step st e).
Proof.
  destruct e as [data | t | id timeout | id cb c | m]; cbn [step].
  - apply continues_handleData.
  - apply continues_timer_fires.
  - now apply continues_alloc.
  - now apply continues_same.
  - unfold send. destruct (stdin st); [now apply continues_same | apply continues_refl].
Qed.

Lemma continues_run (es : list Event) : forall st, continues st (run es st).
Proof.
  induction es as [| e es IH]; intros st; [apply continues_refl |].
  cbn [run fold_left]. eapply continues_trans; [apply continues_step | apply IH].
Qed.

Lemma consistent_init : consistent init.
Proof. intros p. reflexivity. Qed.

Lemma consistent_run (es : list Event) : consistent (run es init).
Proof. apply (continues_run es init), consistent_init. Qed.

Lemma outcomes_at_most_one (es : list Event) (p : nat) :
  (length (outcomes p (run es init)) <= 1)%nat.
Proof.
  rewrite (consistent_run es p).
  destruct (promises (run es init) !! p) as [[] |]; cbn; lia.
Qed.

(** What delivering a frame to a waiter whose promise is no longer pending
    and whose timer is no longer armed changes: the list of calls. *)
Lemma clearTimeout_frame (t : nat) (st : State) :
  buffer (clearTimeout t st) = buffer st /\ handlers (clearTimeout t st) = handlers st /\
  stdin (clearTimeout t st) = stdin st /\ promises (clearTimeout t st) = promises st /\
  settled (clearTimeout t st) = settled st /\ calls (clearTimeout t st) = calls st /\
  console (clearTimeout t st) = console st.
Proof.
  unfold clearTimeout. destruct (timers st !! t) as [tm |]; [| repeat split].
  destruct (t_state tm); repeat split.
Qed.

Lemma target_not_null (v : JSON) (st : State) (h : Handler) :
  target v st = Some h -> v <> JNull.
Proof. intros H ->. discriminate H. Qed.

Lemma processLine_delivers (line : jsstring) (v : JSON) (h : Handler) (st : State) :
  Json.parse line = Some v -> target v st = Some h ->
  processLine line st = call_handler h v (validated v st).
Proof.
  intros Hparse Htarget. rewrite processLine_unfold, Hparse, target_validated, Htarget.
  destruct v; try reflexivity. discriminate Htarget.
Qed.

End Machine.

(** ** The claims about waiting *)

Section Waiting.
Import Client.

(** C3 (as claimed): after the timeout the waiter is still in the map, and
    the late response is given to it. *)
Lemma timeout_does_not_unregister :
  let st := run [EvWaitForResponse id3 3000; EvTimer 0%nat; EvData (wire ok3)] init in
  promises st = [Rejected (js "Timeout waiting for response 3")] /\
  handlers st !! id3 = Some (Waiter 0 0) /\
  calls st = [(Waiter 0 0, ok3)].
Proof. vm_compute. repeat split. Qed.


End Waiting.

(** ** The claims about incoming data *)

Section Incoming.
Import Client.

Lemma processLine_malformed (line : jsstring) (st : State) :
  Json.parse line = None -> processLine line st = st.
Proof. intros H. unfold processLine. now rewrite H. Qed.

Lemma handleData_loop (lines : list jsstring) :
  forall st,
    fold_left (fun st line => if Str.truthy (Str.trim line) then processLine line st else st)
              lines st
    = fold_left (fun s l => processLine l s)
                (filter (fun l => nonblank l && well_formed l) lines) st.
Proof.
  induction lines as [| l lines IH]; intros st; [reflexivity |].
  cbn [fold_left filter]. fold (nonblank l). unfold well_formed at 1.
  destruct (nonblank l); cbn [andb].
  - destruct (Json.parse l) eqn:E; cbn [fold_left]; [apply IH |].
    rewrite processLine_malformed by assumption. apply IH.
  - apply IH.
Qed.

(** C5 (as the code has it): a call of [handleData] amounts to giving
    [processLine], in order, the complete lines that are not blank and that
    parse, and keeping the unfinished rest; a line that does not parse
    changes nothing at all: no handler is called, nothing is logged, the
    lines before and after it are processed as if it were not there. *)
Theorem malformed_lines_are_dropped_silently (data : Buffer) (st : State) :
  let '(lines, rest) := take_lines (buffer st ++ Utf8.decode data) in
  handleData data st
  = fold_left (fun s l => processLine l s)
              (filter (fun l => nonblank l && well_formed l) lines)
              (set_buffer rest st)
  /\ (forall line s, In line lines -> well_formed line = false -> processLine line s = s)
  /\ (forall line, In line lines -> nonblank line = false ->
        ~ In line (filter (fun l => nonblank l && well_formed l) lines)).
Proof.
  unfold take_lines, handleData. cbv zeta. split; [apply handleData_loop |]. split.
  - intros line s _ H. apply processLine_malformed. unfold well_formed in H.
    now destruct (Json.parse line).
  - intros line _ H Hin. apply filter_In in Hin as [_ Hin]. now rewrite H in Hin.
Qed.

Lemma malformed_lines_are_dropped_silently_witness :
  let data := wire ok3 ++ Utf8.encode (js "this is not json" ++ [10] ++ js "   " ++ [10])
              ++ wire zero in
  let st := run [EvWaitForResponse id3 3000] init in
  let '(lines, rest) := take_lines (buffer st ++ Utf8.decode data) in
  handleData data st
  = fold_left (fun s l => processLine l s)
              (filter (fun l => nonblank l && well_formed l) lines)
              (set_buffer rest st)
  /\ (forall line s, In line lines -> well_formed line = false -> processLine line s = s)
  /\ (forall line, In line lines -> nonblank line = false ->
        ~ In line (filter (fun l => nonblank l && well_formed l) lines)).
Proof.
  exact (malformed_lines_are_dropped_silently
           (wire ok3 ++ Utf8.encode (js "this is not json" ++ [10] ++ js "   " ++ [10])
            ++ wire zero)
           (run [EvWaitForResponse id3 3000] init)).
Defined.

(** C5 (as claimed): a line that is not JSON is not reported. *)
Lemma malformed_line_is_not_reported :
  let st := handleData (Utf8.encode (js "this is not json" ++ [10])) init in
  Json.parse (js "this is not json") = None /\ console st = [] /\ st = init.
Proof. vm_compute. repeat split. Qed.

(** The frames around a malformed line and a blank one are delivered. *)
Lemma frames_around_malformed_line :
  let data := wire ok3 ++ Utf8.encode (js "this is not json" ++ [10] ++ js "   " ++ [10])
              ++ wire (response (JNum (int 4)) (JObj [])) in
  let st := run [EvWaitForResponse id3 3000; EvWaitForResponse (KNum (int 4)) 3000;
                 EvData data] init in
  promises st = [Resolved ok3; Resolved (response (JNum (int 4)) (JObj []))].
Proof. vm_compute. reflexivity. Qed.

(** *** Routing *)

Lemma routing_by_id (v : JSON) :
  truthy (get (js "id") v) = true -> routing_key v = get (js "id") v.
Proof.
  unfold routing_key, or_else. intros H. now rewrite H, H.
Qed.

Lemma routing_by_method (v : JSON) :
  truthy (get (js "id") v) = false -> truthy (get (js "method") v) = true ->
  routing_key v = get (js "method") v.
Proof.
  unfold routing_key, or_else. intros Hid Hm. now rewrite Hid, Hm.
Qed.

Lemma routing_by_nothing (v : JSON) :
  truthy (get (js "id") v) = false -> truthy (get (js "method") v) = false ->
  routing_key v = Some (JStr []).
Proof.
  unfold routing_key, or_else. intros Hid Hm. now rewrite Hid, Hm.
Qed.

(** X10: a frame that matches no registered key is dropped: only the
    validators' log line may be added. *)
Lemma unmatched_frame_is_dropped (line : jsstring) (v : JSON) (st : State) :
  Json.parse line = Some v -> v <> JNull -> target v st = None ->
  processLine line st = validated v st.
Proof.
  intros Hparse Hnull Htarget.
  rewrite processLine_unfold, Hparse, target_validated, Htarget.
  destruct v; try reflexivity. now destruct Hnull.
Qed.

(** X11: a frame whose id is truthy is given to the handler registered
    under that id. *)
Lemma frame_with_truthy_id_is_delivered (line : jsstring) (v : JSON) (h : Handler) (st : State) :
  Json.parse line = Some v ->
  truthy (get (js "id") v) = true ->
  handlers_get (get (js "id") v) st = Some h ->
  processLine line st = call_handler h v (validated v st).
Proof.
  intros Hparse Hid Hh. apply processLine_delivers; [exact Hparse |].
  destruct v; try discriminate Hid. cbn [target]. now rewrite routing_by_id.
Qed.

(** C6: the response with id 0 to a caller waiting under id 0.  The
    routing expression takes [0] for absent: the key looked up is [''],
    the waiter is not called and its promise stays pending. *)
Theorem response_with_id_zero_is_not_delivered :
  let st := run [EvWaitForResponse (KNum (int 0)) DEMO_TIMEOUT; EvData (wire zero)] init in
  Json.parse (Json.stringify zero) = Some zero /\
  get (js "id") zero = Some (JNum (int 0)) /\
  get (js "method") zero = None /\
  routing_key zero = Some (JStr []) /\
  handlers st !! KNum (int 0) = Some (Waiter 0 0) /\
  calls st = [] /\
  promises st = [Pending].
Proof. vm_compute. repeat split. Qed.

(** The same response is given to whatever is registered under ['']; and a
    response with id 3 does reach the waiter registered under 3. *)
Lemma response_with_id_zero_goes_to_empty_key :
  calls (run [EvWaitForResponse (KNum (int 0)) DEMO_TIMEOUT; EvOnResponse (KStr []) 9 Returns;
              EvData (wire zero)] init) = [(Callback 9 Returns, zero)] /\
  promises (run [EvWaitForResponse id3 DEMO_TIMEOUT; EvData (wire ok3)] init) = [Resolved ok3].
Proof. vm_compute. split; reflexivity. Qed.

(** A request is routed by its method name only when its id is falsy: with
    id 7 the handler registered for the method is not called, with id 0 it
    is. *)
Lemma request_is_routed_by_id_first :
  calls (run [EvOnResponse (KStr sampling) 1 Returns; EvData (wire (request (JNum (int 7)) sampling))]
             init) = [] /\
  calls (run [EvOnResponse (KStr sampling) 1 Returns; EvData (wire (request (JNum (int 0)) sampling))]
             init) = [(Callback 1 Returns, request (JNum (int 0)) sampling)].
Proof. vm_compute. split; reflexivity. Qed.

End Incoming.

(** ** Round trip of serialized messages *)

Section RoundTrip.
Import Client.

(** [processLine] neither reads nor writes the buffer. *)
Lemma call_handler_set_buffer (h : Handler) (v : JSON) (b : jsstring) (st : State) :
  call_handler h v (set_buffer b st) = set_buffer b (call_handler h v st).
Proof.
  destruct h as [t p | name [| [] message]]; try reflexivity.
  unfold call_handler, clearTimeout, settle.
  cbn [timers promises add_call set_buffer].
  destruct (timers st !! t) as [tm |]; [destruct (t_state tm) |];
    cbn [timers promises add_call set_buffer set_timers];
    destruct (promises st !! p) as [[] |]; reflexivity.
Qed.

Lemma processLine_set_buffer (line b : jsstring) (st : State) :
  processLine line (set_buffer b st) = set_buffer b (processLine line st).
Proof.
  rewrite !processLine_unfold. destruct (Json.parse line) as [v |]; [| reflexivity].
  assert (Hv : validated v (set_buffer b st) = set_buffer b (validated v st)).
  { unfold validated.
    destruct (JSONRPCResponseSchema v); [| destruct (JSONRPCErrorSchema v)]; reflexivity. }
  assert (Ht : forall s, target v (set_buffer b s) = target v s).
  { intros s. destruct v; cbn [target]; try reflexivity;
      unfold handlers_get; destruct (routing_key _) as [[] |]; reflexivity. }
  rewrite Hv, Ht.
  destruct v; try reflexivity;
    (destruct (target _ _); [apply call_handler_set_buffer | reflexivity]).
Qed.

Lemma fold_processLine_set_buffer (ls : list jsstring) (b : jsstring) :
  forall st,
    fold_left (fun s l => processLine l s) ls (set_buffer b st)
    = set_buffer b (fold_left (fun s l => processLine l s) ls st).
Proof.
  induction ls as [| l ls IH]; intros st; [reflexivity |].
  cbn [fold_left]. now rewrite processLine_set_buffer, IH.
Qed.

(** Frames come out of [handleData] whatever lines do not parse. *)
Lemma fold_processLine_well_formed (ls : list jsstring) :
  forall st,
    fold_left (fun s l => processLine l s) (filter well_formed ls) st
    = fold_left (fun s l => processLine l s) ls st.
Proof.
  induction ls as [| l ls IH]; intros st; [reflexivity |].
  cbn [filter fold_left]. unfold well_formed at 1.
  destruct (Json.parse l) eqn:E; cbn [fold_left]; [apply IH |].
  rewrite processLine_malformed by assumption. apply IH.
Qed.

Lemma handleData_received (data : Buffer) (st : State) :
  handleData data st
  = set_buffer (snd (received (buffer st) [data]))
               (fold_left (fun s l => processLine l s) (fst (received (buffer st) [data])) st).
Proof.
  unfold handleData, received. cbn [map feed]. unfold take_lines at 1 2.
  cbn [fst snd]. rewrite List.app_nil_r, <- fold_processLine_set_buffer.
  rewrite handleData_loop.
  rewrite <- (fold_processLine_well_formed (filter nonblank _)).
  f_equal. induction (List.removelast _) as [| l ls IH]; [reflexivity |].
  cbn [filter]. destruct (nonblank l); cbn [andb filter]; [| exact IH].
  destruct (well_formed l); now rewrite IH.
Qed.

Lemma set_buffer_set_buffer (a b : jsstring) (st : State) :
  set_buffer a (set_buffer b st) = set_buffer a st.
Proof. reflexivity. Qed.

Lemma buffer_fold_processLine (ls : list jsstring) :
  forall st, buffer (fold_left (fun s l => processLine l s) ls st) = buffer st.
Proof.
  intros st.
  assert (E : st = set_buffer (buffer st) st) by (now destruct st).
  rewrite E at 1. now rewrite fold_processLine_set_buffer.
Qed.

(** A sequence of [data] events: the lines of [received], in order. *)
Lemma run_data (datas : list Buffer) :
  forall st,
    run (map EvData datas) st
    = set_buffer (snd (received (buffer st) datas))
                 (fold_left (fun s l => processLine l s)
                            (fst (received (buffer st) datas)) st).
Proof.
  induction datas as [| d ds IH]; intros st.
  - cbn. now destruct st.
  - cbn [map run fold_left step]. fold (run (map EvData ds) (handleData d st)).
    rewrite IH, handleData_received. unfold received. cbn [map feed buffer set_buffer].
    destruct (take_lines (buffer st ++ Utf8.decode d)) as [ls r]. cbn [fst snd].
    rewrite List.app_nil_r.
    destruct (feed r (map Utf8.decode ds)) as [ls' r']. cbn [fst snd].
    rewrite fold_processLine_set_buffer, set_buffer_set_buffer.
    now rewrite List.fold_left_app.
Qed.

Lemma decode_ascii (bs : Buffer) :
  Forall (fun b => b <= 0x7F) bs -> Utf8.decode bs = bs.
Proof.
  unfold Utf8.decode. induction 1 as [| b bs Hb _ IH]; [reflexivity |].
  cbn [Utf8.run Utf8.step Utf8.init Utf8.need]. unfold Utf8.lead.
  apply N.leb_le in Hb. rewrite Hb. cbn [app]. now f_equal.
Qed.

Lemma encode_ascii (s : jsstring) :
  Forall (fun c => c <= 0x7F) s -> Utf8.encode s = s.
Proof.
  unfold Utf8.encode. induction 1 as [| c s Hc _ IH]; [reflexivity |].
  cbn [map concat]. unfold Utf8.encode1 at 1.
  apply N.leb_le in Hc. rewrite Hc. cbn [app]. now f_equal.
Qed.

Lemma encode_app (a b : jsstring) : Utf8.encode (a ++ b) = Utf8.encode a ++ Utf8.encode b.
Proof. unfold Utf8.encode. now rewrite List.map_app, List.concat_app. Qed.

Lemma encode_concat (texts : list jsstring) :
  Utf8.encode (concat texts) = concat (map Utf8.encode texts).
Proof.
  induction texts as [| t ts IH]; [reflexivity |].
  cbn [concat map]. now rewrite encode_app, IH.
Qed.

(** If the chunks, each decoded on its own, make up the text of the
    messages, the handler ends in the state that processing the text of
    each message in order leads to. *)
Lemma roundtrip_decoded (msgs : list JSON) (datas : list Buffer) (st : State) :
  buffer st = [] ->
  concat (map Utf8.decode datas) = concat (map (fun m => nl (Json.stringify m)) msgs) ->
  received [] datas = (map Json.stringify msgs, []) /\
  run (map EvData datas) st = fold_left (fun s m => processLine (Json.stringify m) s) msgs st.
Proof.
  intros Hb Hcat.
  assert (Hrec : received [] datas = (map Json.stringify msgs, []))
    by (now apply feed_roundtrip).
  split; [exact Hrec |].
  rewrite run_data, Hb, Hrec. cbn [fst snd].
  replace (set_buffer [] _) with
    (fold_left (fun s l => processLine l s) (map Json.stringify msgs) st).
  - clear. revert st. induction msgs as [| m msgs IH]; intros st; [reflexivity |].
    cbn [map fold_left]. apply IH.
  - pose proof (buffer_fold_processLine (map Json.stringify msgs) st) as Hbuf.
    rewrite Hb in Hbuf.
    destruct (fold_left _ _ st). cbn [buffer] in Hbuf. now subst.
Qed.

(** X12: byte-level round trip for chunks that end between characters: the
    bytes written for the messages, cut anywhere but inside a character,
    give the messages back in order. *)
Theorem handleData_roundtrip_aligned (msgs : list JSON) (texts : list jsstring) (st : State) :
  buffer st = [] ->
  forallb (forallb Utf8.valid) texts = true ->
  concat texts = concat (map (fun m => nl (Json.stringify m)) msgs) ->
  concat (map Utf8.encode texts) = concat (map wire msgs) /\
  received [] (map Utf8.encode texts) = (map Json.stringify msgs, []) /\
  run (map EvData (map Utf8.encode texts)) st
  = fold_left (fun s m => processLine (Json.stringify m) s) msgs st.
Proof.
  intros Hb Hvalid Hcat. split.
  - rewrite <- encode_concat, Hcat. clear. induction msgs as [| m msgs IH]; [reflexivity |].
    cbn [map concat]. rewrite encode_app, IH. reflexivity.
  - apply roundtrip_decoded; [exact Hb |]. rewrite <- Hcat. f_equal.
    rewrite List.map_map. clear Hcat.
    induction texts as [| t ts IH]; [reflexivity |].
    cbn [forallb map] in *. apply andb_prop in Hvalid as [Ht Hts].
    now rewrite decode_encode, IH.
Qed.

(** X13: byte-level round trip for traffic in ASCII: however the bytes written
    for the messages are cut into chunks, they give the messages back in
    order. *)
Theorem handleData_roundtrip_ascii (msgs : list JSON) (datas : list Buffer) (st : State) :
  buffer st = [] ->
  Forall (fun m => Forall (fun c => c <= 0x7F) (Json.stringify m)) msgs ->
  concat datas = concat (map wire msgs) ->
  received [] datas = (map Json.stringify msgs, []) /\
  run (map EvData datas) st = fold_left (fun s m => processLine (Json.stringify m) s) msgs st.
Proof.
  intros Hb Hascii Hcat.
  assert (Hwire : map wire msgs = map (fun m => nl (Json.stringify m)) msgs).
  { apply map_ext_Forall. eapply List.Forall_impl; [| exact Hascii]. cbv beta.
    intros m Hm. unfold wire. apply encode_ascii. apply Forall_app. split; [exact Hm |].
    repeat constructor. lia. }
  assert (Hall : Forall (fun b => b <= 0x7F) (concat datas)).
  { rewrite Hcat, Hwire. apply Forall_concat, Forall_map.
    eapply List.Forall_impl; [| exact Hascii]. cbv beta.
    intros m Hm. apply Forall_app. split; [exact Hm |]. repeat constructor. lia. }
  assert (Hdec : map Utf8.decode datas = datas).
  { clear Hcat. induction datas as [| d ds IH]; [reflexivity |].
    cbn [concat] in Hall. apply Forall_app in Hall as [Hd Hds].
    cbn [map]. now rewrite decode_ascii, IH. }
  apply roundtrip_decoded; [exact Hb |]. now rewrite Hdec, Hcat, Hwire.
Qed.

(** C1: the refusal that the demo's OAuth server answers with, written as
    [send] writes messages and received in two chunks of which the first
    ends inside the first character of its text.  Each chunk is decoded on
    its own, so the character is lost: the line given to [processLine] is
    not the text that was sent, and the waiter is resolved with a message
    that is not the one that was sent.  Received in one chunk, the same
    bytes give the message back. *)
Theorem chunk_boundary_inside_character :
  let bytes := wire refusal in
  let cut := inside_first_character bytes in
  let chunk1 := firstn cut bytes in
  let chunk2 := skipn cut bytes in
  let waiting := run [EvWaitForResponse id3 DEMO_TIMEOUT] init in
  chunk1 ++ chunk2 = bytes /\
  received [] [bytes] = ([Json.stringify refusal], []) /\
  promises (run [EvData bytes] waiting) = [Resolved refusal] /\
  received [] [chunk1; chunk2] = ([Json.stringify garbled], []) /\
  promises (run [EvData chunk1; EvData chunk2] waiting) = [Resolved garbled] /\
  Json.stringify garbled <> Json.stringify refusal /\
  garbled <> refusal.
Proof.
  cbv zeta. split; [apply firstn_skipn |].
  split; [vm_compute; reflexivity |]. split; [vm_compute; reflexivity |].
  split; [vm_compute; reflexivity |]. split; [vm_compute; reflexivity |].
  split; [vm_compute; discriminate |]. vm_compute. discriminate.
Qed.

End RoundTrip.

(** ** Invariants of the handler *)

Section Invariants.
Import Json Client.

Lemma mirrors_same (st st' : State) :
  timers st' = timers st -> promises st' = promises st -> handlers st' = handlers st ->
  mirrors st -> mirrors st'.
Proof. unfold mirrors. now intros -> -> ->. Qed.

(** Delivery to a waiter keeps timers and promises in step. *)
Lemma mirrors_call_handler (h : Handler) (v : JSON) (st : State) :
  (forall t p, h = Waiter t p -> t = p /\ is_Some (timers st !! t)) ->
  mirrors st -> mirrors (call_handler h v st).
Proof.
  intros Hh Hm. unfold call_handler.
  destruct h as [t p | name [| [] message]];
    try (revert Hm; now apply mirrors_same).
  destruct (Hh t p eq_refl) as [<- [tm Htm]]. clear Hh.
  destruct Hm as (Hlen & Htimers & Hhandlers).
  destruct (Htimers t tm Htm) as [Hp Hpair].
  unfold clearTimeout. cbn [timers add_call]. rewrite Htm.
  pose proof (lookup_lt_Some _ _ _ Htm) as Hlt.
  destruct (t_state tm) eqn:Hs; cbn [paired] in Hpair.
  - destruct (promises st !! t) as [[] |] eqn:Hpr; try contradiction.
    rewrite settle_pending by exact Hpr. unfold mirrors.
    cbn [promises settled timers handlers set_promises set_timers add_call].
    split; [now rewrite !length_insert |]. split.
    + intros t' tm' Ht'. destruct (decide (t' = t)) as [-> | Hne].
      * rewrite list_lookup_insert_eq in Ht' by assumption. injection Ht' as <-.
        cbn [with_state t_promise t_state]. split; [exact Hp |].
        rewrite list_lookup_insert_eq by (rewrite <- Hlen; assumption). exact I.
      * rewrite list_lookup_insert_ne in Ht' by congruence.
        rewrite list_lookup_insert_ne by congruence. now apply Htimers.
    + intros k t' p' Hk. destruct (Hhandlers k t' p' Hk) as [-> (tm' & Htm' & Hkey)].
      split; [reflexivity |]. destruct (decide (p' = t)) as [-> | Hne].
      * exists (with_state Cleared tm). rewrite list_lookup_insert_eq by assumption.
        split; [reflexivity |]. cbn [with_state t_key]. congruence.
      * exists tm'. now rewrite list_lookup_insert_ne by congruence.
  - rewrite settle_other.
    + now split.
    + cbn [promises add_call]. destruct (promises st !! t) as [[] |]; try contradiction; discriminate.
  - rewrite settle_other.
    + now split.
    + cbn [promises add_call]. destruct (promises st !! t) as [[] |]; try contradiction; discriminate.
Qed.

Lemma target_Waiter (v : JSON) (st : State) (t p : nat) :
  target v st = Some (Waiter t p) -> exists k, handlers st !! k = Some (Waiter t p).
Proof.
  destruct v; cbn [target]; try discriminate;
    unfold handlers_get; destruct (routing_key _) as [[] |]; try discriminate; eauto.
Qed.

Lemma mirrors_processLine (line : jsstring) (st : State) :
  mirrors st -> mirrors (processLine line st).
Proof.
  intros Hm. rewrite processLine_unfold. destruct (Json.parse line) as [v |]; [| exact Hm].
  destruct (validated_frame v st) as (_ & Hh & _ & Ht & Hp & _).
  assert (Hv : mirrors (validated v st)) by (revert Hm; now apply mirrors_same).
  assert (Hdel : forall h, target v (validated v st) = Some h ->
                           mirrors (call_handler h v (validated v st))).
  { intros h Hh'. apply mirrors_call_handler; [| exact Hv].
    intros t p ->. apply target_Waiter in Hh' as [k Hk].
    destruct Hv as (_ & _ & Hhandlers). destruct (Hhandlers k t p Hk) as [-> (tm & Htm & _)].
    split; [reflexivity | eauto]. }
  destruct v; try (revert Hv; now apply mirrors_same);
    (destruct (target _ _) as [h |] eqn:E; [now apply Hdel | exact Hv]).
Qed.

Lemma mirrors_handleData (data : Buffer) (st : State) :
  mirrors st -> mirrors (handleData data st).
Proof.
  intros Hm. unfold handleData.
  set (st0 := set_buffer _ st).
  assert (H0 : mirrors st0) by (revert Hm; now apply mirrors_same).
  clearbody st0. revert st0 H0.
  induction (List.removelast _) as [| l ls IH]; intros st0 H0; [exact H0 |].
  cbn [fold_left]. apply IH. destruct (Str.truthy _); [now apply mirrors_processLine | exact H0].
Qed.

Lemma mirrors_timer_fires (t : nat) (st : State) :
  mirrors st -> mirrors (timer_fires t st).
Proof.
  intros Hm. unfold timer_fires.
  destruct (timers st !! t) as [tm |] eqn:Htm; [| exact Hm].
  destruct (t_state tm) eqn:Hs; try exact Hm.
  destruct Hm as (Hlen & Htimers & Hhandlers).
  destruct (Htimers t tm Htm) as [Hp Hpair]. rewrite Hs in Hpair. cbn [paired] in Hpair.
  pose proof (lookup_lt_Some _ _ _ Htm) as Hlt. rewrite Hp.
  destruct (promises st !! t) as [[] |] eqn:Hpr; try contradiction.
  rewrite settle_pending by exact Hpr. unfold mirrors.
  cbn [promises settled timers handlers set_promises set_timers].
  split; [now rewrite !length_insert |]. split.
  - intros t' tm' Ht'. destruct (decide (t' = t)) as [-> | Hne].
    + rewrite list_lookup_insert_eq in Ht' by assumption. injection Ht' as <-.
      cbn [with_state t_promise t_state]. split; [exact Hp |].
      rewrite list_lookup_insert_eq by (rewrite <- Hlen; assumption). exact I.
    + rewrite list_lookup_insert_ne in Ht' by congruence.
      rewrite list_lookup_insert_ne by congruence. now apply Htimers.
  - intros k t' p' Hk. destruct (Hhandlers k t' p' Hk) as [-> (tm' & Htm' & Hkey)].
    split; [reflexivity |]. destruct (decide (p' = t)) as [-> | Hne].
    + exists (with_state Fired tm). rewrite list_lookup_insert_eq by assumption.
      split; [reflexivity |]. cbn [with_state t_key]. congruence.
    + exists tm'. now rewrite list_lookup_insert_ne by congruence.
Qed.

Lemma mirrors_waitForResponse (id : Key) (timeout : Z) (st : State) :
  mirrors st -> mirrors (snd (waitForResponse id timeout st)).
Proof.
  intros (Hlen & Htimers & Hhandlers). unfold waitForResponse, onResponse, mirrors.
  cbn [snd promises timers handlers settled set_promises set_timers set_handlers].
  split; [rewrite !List.length_app; cbn [length]; lia |]. split.
  - intros t tm Ht. destruct (decide (t < length (timers st))%nat) as [Hlt | Hge].
    + rewrite lookup_app_l in Ht by assumption.
      rewrite lookup_app_l by (rewrite <- Hlen; assumption). now apply Htimers.
    + destruct (decide (t = length (timers st))) as [-> | Hne].
      * rewrite list_lookup_middle in Ht by reflexivity. injection Ht as <-.
        cbn [t_promise t_state]. split; [now rewrite Hlen |].
        rewrite Hlen, list_lookup_middle by reflexivity. exact I.
      * apply lookup_lt_Some in Ht. rewrite List.length_app in Ht. cbn in Ht. lia.
  - intros k t p Hk. destruct (decide (k = id)) as [-> | Hne].
    + rewrite lookup_insert_eq in Hk. injection Hk as <- <-.
      split; [exact Hlen |]. eexists. rewrite list_lookup_middle by reflexivity.
      split; reflexivity.
    + rewrite lookup_insert_ne in Hk by congruence.
      destruct (Hhandlers k t p Hk) as [-> (tm & Htm & Hkey)].
      split; [reflexivity |]. exists tm. split; [| exact Hkey].
      rewrite lookup_app_l; [exact Htm | now apply lookup_lt_Some in Htm].
Qed.

Lemma mirrors_step (st : State) (e : Event) : mirrors st -> mirrors (step st e).
Proof.
  intros Hm. destruct e as [data | t | id timeout | id cb c | m]; cbn [step].
  - now apply mirrors_handleData.
  - now apply mirrors_timer_fires.
  - now apply mirrors_waitForResponse.
  - destruct Hm as (Hlen & Htimers & Hhandlers). unfold onResponse, mirrors.
    split; [exact Hlen |]. split; [exact Htimers |].
    cbn [handlers timers set_handlers]. intros k t p Hk.
    destruct (decide (k = id)) as [-> | Hne].
    + rewrite lookup_insert_eq in Hk. discriminate Hk.
    + rewrite lookup_insert_ne in Hk by congruence. now apply Hhandlers.
  - unfold send. destruct (stdin st); [| exact Hm]. revert Hm. now apply mirrors_same.
Qed.

(** X1: whatever the handler has been through, the timer of every
    [waitForResponse] call tells the state of its promise: armed and
    pending, cleared and resolved, or fired and rejected; and a waiter
    found in the map belongs to the call that registered it under that
    key. *)
Theorem timers_mirror_promises (es : list Event) : mirrors (run es init).
Proof.
  assert (H : forall st, mirrors st -> mirrors (run es st)).
  { induction es as [| e es IH]; intros st Hm; [exact Hm |].
    cbn [run fold_left]. apply IH. now apply mirrors_step. }
  apply H. split; [reflexivity |]. split.
  - intros t tm Ht. discriminate Ht.
  - intros k t p Hk. unfold init in Hk. cbn [handlers] in Hk.
    rewrite lookup_empty in Hk. discriminate Hk.
Qed.

(** What [processLine] leaves alone. *)
Lemma processLine_frame (line : jsstring) (st : State) :
  buffer (processLine line st) = buffer st /\
  handlers (processLine line st) = handlers st /\
  stdin (processLine line st) = stdin st.
Proof.
  rewrite processLine_unfold. destruct (Json.parse line) as [v |]; [| repeat split].
  destruct (validated_frame v st) as (Hb & Hh & Hs & _).
  assert (Hcall : forall h, buffer (call_handler h v (validated v st)) = buffer st /\
                            handlers (call_handler h v (validated v st)) = handlers st /\
                            stdin (call_handler h v (validated v st)) = stdin st).
  { intros h. unfold call_handler. destruct h as [t p | name [| [] message]];
      try (now repeat split).
    set (s0 := add_call _ _ _).
    destruct (clearTimeout_frame t s0) as (Hb' & Hh' & Hs' & _).
    unfold settle. destruct (promises (clearTimeout t s0) !! p) as [[] |];
      cbn [buffer handlers stdin set_promises]; rewrite ?Hb', ?Hh', ?Hs'; now repeat split. }
  destruct v; try (now repeat split);
    (destruct (target _ _); [apply Hcall | now repeat split]).
Qed.

Lemma fold_processLine_frame (ls : list jsstring) :
  forall st,
    handlers (fold_left (fun s l => processLine l s) ls st) = handlers st /\
    stdin (fold_left (fun s l => processLine l s) ls st) = stdin st.
Proof.
  induction ls as [| l ls IH]; intros st; [now split |].
  cbn [fold_left]. destruct (IH (processLine l st)) as [-> ->].
  destruct (processLine_frame l st) as (_ & -> & ->). now split.
Qed.

Lemma handleData_frame (data : Buffer) (st : State) :
  handlers (handleData data st) = handlers st /\ stdin (handleData data st) = stdin st.
Proof.
  rewrite handleData_received. cbn [handlers stdin set_buffer]. apply fold_processLine_frame.
Qed.

Lemma handleData_buffer (data : Buffer) (st : State) :
  no_newline (buffer (handleData data st)) = true.
Proof.
  rewrite handleData_received. cbn [buffer set_buffer]. unfold received. cbn [map feed].
  destruct (take_lines_spec (buffer st ++ Utf8.decode data)) as (_ & _ & H).
  destruct (take_lines _) as [ls r]. exact H.
Qed.

Lemma step_buffer (st : State) (e : Event) :
  no_newline (buffer st) = true -> no_newline (buffer (step st e)) = true.
Proof.
  intros H. destruct e as [data | t | id timeout | id cb c | m]; cbn [step]; try exact H.
  - apply handleData_buffer.
  - unfold timer_fires. destruct (timers st !! t) as [tm |]; [| exact H].
    destruct (t_state tm); try exact H.
    unfold settle. cbn [promises set_timers].
    destruct (promises st !! t_promise tm) as [[] |]; exact H.
  - unfold send. destruct (stdin st); exact H.
Qed.

(** X2: the buffer of the handler never holds a line feed: every complete
    line has been taken out of it by the time [handleData] returns. *)
Theorem buffer_never_holds_a_newline (es : list Event) :
  no_newline (buffer (run es init)) = true.
Proof.
  assert (H : forall st, no_newline (buffer st) = true -> no_newline (buffer (run es st)) = true).
  { induction es as [| e es IH]; intros st Hst; [exact Hst |].
    cbn [run fold_left]. apply IH. now apply step_buffer. }
  now apply H.
Qed.

(** X3: a chunk that completes no line is appended to the buffer and
    nothing else happens: no line is parsed, no handler is called, nothing
    is logged. *)
Theorem handleData_keeps_partial_frame (data : Buffer) (st : State) :
  no_newline (buffer st ++ Utf8.decode data) = true ->
  handleData data st = set_buffer (buffer st ++ Utf8.decode data) st.
Proof.
  intros H. rewrite handleData_received. unfold received. cbn [map feed].
  rewrite take_lines_rest by exact H. reflexivity.
Qed.

Lemma handleData_keeps_partial_frame_witness :
  handleData (firstn 20 (wire ok3)) (run [EvWaitForResponse id3 DEMO_TIMEOUT] init)
  = set_buffer (buffer (run [EvWaitForResponse id3 DEMO_TIMEOUT] init)
                ++ Utf8.decode (firstn 20 (wire ok3)))
               (run [EvWaitForResponse id3 DEMO_TIMEOUT] init).
Proof.
  apply (handleData_keeps_partial_frame (firstn 20 (wire ok3))
           (run [EvWaitForResponse id3 DEMO_TIMEOUT] init)).
  vm_compute. reflexivity.
Defined.

(** X4: how the bytes are cut into chunks does not matter as long as
    decoding the chunks one by one gives the text of the whole: the chunks
    fed one after the other leave the handler as the whole fed at once. *)
Theorem chunking_is_irrelevant (datas : list Buffer) (st : State) :
  no_newline (buffer st) = true ->
  concat (map Utf8.decode datas) = Utf8.decode (concat datas) ->
  run (map EvData datas) st = handleData (concat datas) st.
Proof.
  intros Hb Hdec.
  rewrite run_data, handleData_received. unfold received.
  rewrite feed_concat by exact Hb. cbn [map]. rewrite feed_concat by exact Hb.
  cbn [concat]. now rewrite List.app_nil_r, Hdec.
Qed.

Lemma chunking_is_irrelevant_witness :
  run (map EvData [firstn 20 (wire ok3); skipn 20 (wire ok3) ++ firstn 7 (wire zero);
                   skipn 7 (wire zero)])
      (run [EvWaitForResponse id3 DEMO_TIMEOUT] init)
  = handleData (concat [firstn 20 (wire ok3); skipn 20 (wire ok3) ++ firstn 7 (wire zero);
                        skipn 7 (wire zero)])
               (run [EvWaitForResponse id3 DEMO_TIMEOUT] init).
Proof.
  apply (chunking_is_irrelevant
           [firstn 20 (wire ok3); skipn 20 (wire ok3) ++ firstn 7 (wire zero);
            skipn 7 (wire zero)]
           (run [EvWaitForResponse id3 DEMO_TIMEOUT] init)); vm_compute; reflexivity.
Defined.

(** X5: no event takes a key out of the handler map: a handler stays
    registered after its response came, after its timer fired, and
    whatever is received or sent. *)
Theorem handlers_are_never_removed (es : list Event) (st : State) (k : Key) :
  is_Some (handlers st !! k) -> is_Some (handlers (run es st) !! k).
Proof.
  revert st. induction es as [| e es IH]; intros st H; [exact H |].
  cbn [run fold_left]. apply IH.
  destruct e as [data | t | id timeout | id cb c | m]; cbn [step].
  - now rewrite (proj1 (handleData_frame data st)).
  - unfold timer_fires. destruct (timers st !! t) as [tm |]; [| exact H].
    destruct (t_state tm); try exact H.
    unfold settle. cbn [promises set_timers].
    destruct (promises st !! t_promise tm) as [[] |]; exact H.
  - unfold waitForResponse, onResponse. cbn [snd handlers set_handlers set_timers set_promises].
    apply lookup_insert_is_Some'. now right.
  - unfold onResponse. cbn [handlers set_handlers]. apply lookup_insert_is_Some'. now right.
  - unfold send. destruct (stdin st); exact H.
Qed.

Lemma handlers_are_never_removed_witness :
  is_Some (handlers (run [EvData (wire ok3); EvTimer 0; EvSend zero]
                         (run [EvWaitForResponse id3 DEMO_TIMEOUT] init)) !! id3).
Proof.
  apply (handlers_are_never_removed [EvData (wire ok3); EvTimer 0; EvSend zero]
           (run [EvWaitForResponse id3 DEMO_TIMEOUT] init) id3).
  exists (Waiter 0 0). vm_compute. reflexivity.
Defined.

(** X6: the line [null] is valid JSON, so reading [id] of the value
    throws a TypeError inside [processLine]: unlike a line that does not
    parse it is reported on the console, and nothing else changes. *)
Theorem null_line_is_an_error (line : jsstring) (st : State) :
  Json.parse line = Some JNull ->
  processLine line st
  = print (Error (js "Error processing response: Cannot read properties of null (reading 'id')")) st.
Proof. intros H. rewrite processLine_unfold, H. reflexivity. Qed.

Lemma null_line_is_an_error_witness :
  processLine (js "null") init
  = print (Error (js "Error processing response: Cannot read properties of null (reading 'id')"))
          init.
Proof. apply (null_line_is_an_error (js "null") init). vm_compute. reflexivity. Defined.



Lemma target_routing_key (v : JSON) (st : State) :
  v <> JNull -> target v st = handlers_get (routing_key v) st.
Proof. intros Hnull. destruct v; try reflexivity. now destruct Hnull. Qed.

(** X8: a frame whose id is falsy (absent, [0], [''], [null], [false]) and
    whose method is truthy is given to the handler registered under the
    method. *)
Theorem frame_without_id_is_routed_by_method
    (line : jsstring) (v : JSON) (h : Handler) (st : State) :
  Json.parse line = Some v -> v <> JNull ->
  truthy (get (js "id") v) = false ->
  truthy (get (js "method") v) = true ->
  handlers_get (get (js "method") v) st = Some h ->
  processLine line st = call_handler h v (validated v st).
Proof.
  intros Hparse Hnull Hid Hm Hh. apply processLine_delivers; [exact Hparse |].
  rewrite target_routing_key by exact Hnull.
  unfold routing_key, or_else. now rewrite Hid, Hm.
Qed.

Lemma frame_without_id_is_routed_by_method_witness :
  let st := run [EvOnResponse (KStr sampling) 1 Returns] init in
  let v := request (JNum (int 0)) sampling in
  processLine (Json.stringify v) st = call_handler (Callback 1 Returns) v (validated v st).
Proof.
  apply (frame_without_id_is_routed_by_method
           (Json.stringify (request (JNum (int 0)) sampling))
           (request (JNum (int 0)) sampling) (Callback 1 Returns)
           (run [EvOnResponse (KStr sampling) 1 Returns] init));
    try discriminate; vm_compute; reflexivity.
Defined.

(** X9: a line that parses to a value other than an object and [null] (a
    number, a string, a boolean, an array) has neither id nor method: it is
    given to the handler registered under the empty string. *)
Theorem frame_that_is_no_object_goes_to_empty_key
    (line : jsstring) (v : JSON) (h : Handler) (st : State) :
  Json.parse line = Some v -> v <> JNull -> (forall fields, v <> JObj fields) ->
  handlers st !! KStr [] = Some h ->
  processLine line st = call_handler h v (validated v st).
Proof.
  intros Hparse Hnull Hobj Hh. apply processLine_delivers; [exact Hparse |].
  rewrite target_routing_key by exact Hnull.
  destruct v; try exact Hh. exfalso. eapply Hobj. reflexivity.
Qed.

Lemma frame_that_is_no_object_goes_to_empty_key_witness :
  let st := run [EvOnResponse (KStr []) 1 Returns] init in
  processLine (js "42") st
  = call_handler (Callback 1 Returns) (JNum (int 42)) (validated (JNum (int 42)) st).
Proof.
  apply (frame_that_is_no_object_goes_to_empty_key (js "42") (JNum (int 42)) (Callback 1 Returns)
           (run [EvOnResponse (KStr []) 1 Returns] init));
    try discriminate; vm_compute; reflexivity.
Defined.

(** X10 (witness): a response under an id nobody waits for. *)
Lemma unmatched_frame_is_dropped_witness :
  processLine (Json.stringify ok3) init = validated ok3 init.
Proof.
  apply (unmatched_frame_is_dropped (Json.stringify ok3) ok3 init);
    try discriminate; vm_compute; reflexivity.
Defined.

(** X11 (witness): the response with id 3 and the waiter registered
    under 3. *)
Lemma frame_with_truthy_id_is_delivered_witness :
  let st := run [EvWaitForResponse id3 DEMO_TIMEOUT] init in
  processLine (Json.stringify ok3) st = call_handler (Waiter 0 0) ok3 (validated ok3 st).
Proof.
  apply (frame_with_truthy_id_is_delivered (Json.stringify ok3) ok3 (Waiter 0 0)
           (run [EvWaitForResponse id3 DEMO_TIMEOUT] init)); vm_compute; reflexivity.
Defined.

(** X12 (witness): two messages, the first with text outside ASCII, cut
    between characters. *)
Lemma handleData_roundtrip_aligned_witness :
  let msgs := [refusal; zero] in
  let texts := [firstn 100 (nl (Json.stringify refusal));
                skipn 100 (nl (Json.stringify refusal)) ++ nl (Json.stringify zero)] in
  concat (map Utf8.encode texts) = concat (map wire msgs) /\
  received [] (map Utf8.encode texts) = (map Json.stringify msgs, []) /\
  run (map EvData (map Utf8.encode texts)) init
  = fold_left (fun s m => processLine (Json.stringify m) s) msgs init.
Proof.
  apply (handleData_roundtrip_aligned [refusal; zero]
           [firstn 100 (nl (Json.stringify refusal));
            skipn 100 (nl (Json.stringify refusal)) ++ nl (Json.stringify zero)] init);
    vm_compute; reflexivity.
Defined.

(** X13 (witness): two ASCII messages cut at arbitrary bytes. *)
Lemma handleData_roundtrip_ascii_witness :
  let msgs := [ok3; zero] in
  let datas := [firstn 20 (wire ok3); skipn 20 (wire ok3) ++ firstn 7 (wire zero);
                skipn 7 (wire zero)] in
  received [] datas = (map Json.stringify msgs, []) /\
  run (map EvData datas) init
  = fold_left (fun s m => processLine (Json.stringify m) s) msgs init.
Proof.
  apply (handleData_roundtrip_ascii [ok3; zero]
           [firstn 20 (wire ok3); skipn 20 (wire ok3) ++ firstn 7 (wire zero);
            skipn 7 (wire zero)] init).
  - reflexivity.
  - vm_compute. repeat constructor; discriminate.
  - vm_compute. reflexivity.
Defined.

(** X23: a response whose id is truthy resolves the call that waits under
    that id, in whatever state the handler was when the call was made: the
    promise of the call is resolved with the response, its timer is
    cleared, and the call is the one settlement and the one handler call
    the line adds. *)
Theorem waiter_is_resolved_by_its_response
    (k : Key) (timeout : Z) (line : jsstring) (v : JSON) (st : State) :
  Json.parse line = Some v ->
  get (js "id") v = Some (key_json k) ->
  truthy (get (js "id") v) = true ->
  let p := fst (waitForResponse k timeout st) in
  let st' := processLine line (snd (waitForResponse k timeout st)) in
  promises st' !! p = Some (Resolved v) /\
  t_state <$> timers st' !! length (timers st) = Some Cleared /\
  settled st' = settled st ++ [(p, Resolved v)] /\
  calls st' = calls st ++ [(Waiter (length (timers st)) p, v)].
Proof.
  intros Hparse Hid Htruthy. cbv zeta.
  set (st1 := snd (waitForResponse k timeout st)).
  set (p := fst (waitForResponse k timeout st)).
  set (t := length (timers st)).
  assert (Hh : handlers st1 !! k = Some (Waiter t p)).
  { unfold st1, waitForResponse, onResponse. cbn [snd handlers set_handlers].
    apply lookup_insert_eq. }
  assert (Htarget : target v st1 = Some (Waiter t p)).
  { destruct v; try discriminate Hid. cbn [target].
    rewrite routing_by_id by exact Htruthy. rewrite Hid.
    destruct k; exact Hh. }
  rewrite (processLine_delivers line v _ st1 Hparse Htarget).
  destruct (validated_frame v st1) as (_ & _ & _ & Ht & Hp & Hs & Hc).
  set (st2 := validated v st1) in *.
  assert (Ht1 : timers st1 = timers st ++ [mkTimer Armed p k timeout]) by reflexivity.
  assert (Hp1 : promises st1 = promises st ++ [Pending]) by reflexivity.
  assert (Hs1 : settled st1 = settled st) by reflexivity.
  assert (Hc1 : calls st1 = calls st) by reflexivity.
  clearbody st2 st1.
  unfold call_handler, clearTimeout. cbn [timers add_call].
  rewrite Ht, Ht1. unfold t. rewrite list_lookup_middle by reflexivity.
  cbn [t_state]. rewrite settle_pending.
  - cbn [promises timers settled calls set_promises set_timers add_call].
    rewrite Hp, Hp1, Hs, Hs1, Hc, Hc1. unfold p, waitForResponse. cbn [fst].
    split; [| split; [| split; reflexivity]].
    + rewrite list_lookup_insert_eq; [reflexivity |]. rewrite length_app. cbn. lia.
    + rewrite list_lookup_insert_eq; [reflexivity |]. rewrite length_app. cbn. lia.
  - cbn [promises set_timers add_call]. rewrite Hp, Hp1.
    unfold p, waitForResponse. cbn [fst]. now rewrite list_lookup_middle.
Qed.

Lemma waiter_is_resolved_by_its_response_witness :
  let st := run [EvWaitForResponse (KNum (int 2)) DEMO_TIMEOUT; EvTimer 0] init in
  let p := fst (waitForResponse id3 3000 st) in
  let st' := processLine (Json.stringify refusal) (snd (waitForResponse id3 3000 st)) in
  promises st' !! p = Some (Resolved refusal) /\
  t_state <$> timers st' !! length (timers st) = Some Cleared /\
  settled st' = settled st ++ [(p, Resolved refusal)] /\
  calls st' = calls st ++ [(Waiter (length (timers st)) p, refusal)].
Proof.
  apply (waiter_is_resolved_by_its_response id3 3000 (Json.stringify refusal) refusal
           (run [EvWaitForResponse (KNum (int 2)) DEMO_TIMEOUT; EvTimer 0] init));
    vm_compute; reflexivity.
Defined.

End Invariants.

(** ** Calls that wait for one key *)

Section Waiters.
Import Json Client.

Lemma mirrors_init : mirrors init.
Proof.
  split; [reflexivity |]. split.
  - intros t tm Ht. discriminate Ht.
  - intros k t p Hk. unfold init in Hk. cbn [handlers] in Hk.
    rewrite lookup_empty in Hk. discriminate Hk.
Qed.

Lemma mirrors_run (es : list Event) : forall st, mirrors st -> mirrors (run es st).
Proof.
  induction es as [| e es IH]; intros st Hm; [exact Hm |].
  cbn [run fold_left]. apply IH. now apply mirrors_step.
Qed.

Lemma target_by_id (v : JSON) (k : Key) (st : State) :
  get (js "id") v = Some (key_json k) -> truthy (get (js "id") v) = true ->
  target v st = handlers st !! k.
Proof.
  intros Hid Htruthy. destruct v; try discriminate Hid. cbn [target].
  rewrite routing_by_id by exact Htruthy. rewrite Hid. now destruct k.
Qed.








Lemma processLine_resolves (line : jsstring) (v : JSON) (t p : nat) (s : State) :
  Json.parse line = Some v -> target v s = Some (Waiter t p) ->
  promises s !! p = Some Pending ->
  promises (processLine line s) !! p = Some (Resolved v).
Proof.
  intros Hparse Htarget Hpend.
  rewrite (processLine_delivers line v _ s Hparse Htarget).
  unfold call_handler. set (s0 := clearTimeout _ _).
  assert (Hp0 : promises s0 = promises s).
  { unfold s0. destruct (clearTimeout_frame t (add_call (Waiter t p) v (validated v s)))
      as (_ & _ & _ & -> & _).
    cbn [promises add_call]. apply (validated_frame v s). }
  rewrite settle_pending by (now rewrite Hp0).
  cbn [promises set_promises]. rewrite Hp0.
  apply list_lookup_insert_eq. now apply lookup_lt_Some in Hpend.
Qed.

Lemma processLine_calls (line : jsstring) (v : JSON) (h : Handler) (s : State) :
  Json.parse line = Some v -> target v s = Some h ->
  calls (processLine line s) = calls s ++ [(h, v)].
Proof.
  intros Hparse Htarget.
  rewrite (processLine_delivers line v _ s Hparse Htarget).
  destruct (validated_frame v s) as (_ & _ & _ & _ & _ & _ & Hc).
  unfold call_handler. destruct h as [t p | name [| [] message]];
    cbn [calls add_call print]; rewrite ?Hc; try reflexivity.
  set (sa := add_call _ _ _).
  destruct (clearTimeout_frame t sa) as (_ & _ & _ & _ & _ & Hcc & _).
  unfold settle. destruct (promises (clearTimeout t sa) !! p) as [[] |];
    cbn [calls set_promises]; rewrite Hcc; unfold sa; cbn [calls add_call];
    now rewrite Hc.
Qed.




(** C3 (as the code has it): when the timer of a waiter runs out while
    its promise is pending, the promise is rejected with the timeout error
    and stays so; the handler map is not touched, so the waiter remains
    registered under its key.  A response that carries the key as a truthy
    id, arriving at any later time while that waiter is the one
    registered, is still given to it: the call is made, and its
    [clearTimeout] and [resolve] change nothing. *)
Theorem timeout_rejects_and_keeps_waiter
    (es : list Event) (k : Key) (t p : nat) (d : Z)
    (Htimer : timers (run es init) !! t = Some (mkTimer Armed p k d))
    (Hpending : promises (run es init) !! p = Some Pending)
    (Hreg : handlers (run es init) !! k = Some (Waiter t p)) :
  let st := run es init in
  let st1 := timer_fires t st in
  promises st1 !! p = Some (timeout_error k) /\
  handlers st1 = handlers st /\
  handlers st1 !! k = Some (Waiter t p) /\
  (forall es', promises (run es' st1) !! p = Some (timeout_error k)) /\
  (forall es' line v,
      Json.parse line = Some v ->
      get (js "id") v = Some (key_json k) -> truthy (get (js "id") v) = true ->
      handlers (run es' st1) !! k = Some (Waiter t p) ->
      let s := run es' st1 in
      let s' := processLine line s in
      calls s' = calls s ++ [(Waiter t p, v)] /\
      promises s' = promises s /\ settled s' = settled s /\
      timers s' = timers s /\ handlers s' = handlers s).
Proof.
  cbv zeta. set (st := run es init) in *.
  assert (Hm : mirrors st) by (apply mirrors_run, mirrors_init).
  assert (Hm1 : mirrors (timer_fires t st)) by (now apply mirrors_timer_fires).
  assert (H1 : promises (timer_fires t st) !! p = Some (timeout_error k)).
  { unfold timer_fires. rewrite Htimer. cbn [t_state t_promise t_key].
    rewrite settle_pending by exact Hpending. cbn [promises set_promises].
    apply list_lookup_insert_eq. now apply lookup_lt_Some in Hpending. }
  assert (Hh : handlers (timer_fires t st) = handlers st).
  { unfold timer_fires. rewrite Htimer. cbn [t_state t_promise t_key].
    now rewrite settle_pending by exact Hpending. }
  set (st1 := timer_fires t st) in *.
  assert (Hstay : forall es', promises (run es' st1) !! p = Some (timeout_error k)).
  { intros es'. apply (continues_run es' st1); [exact H1 | discriminate]. }
  split; [exact H1 |]. split; [exact Hh |]. split; [now rewrite Hh |].
  split; [exact Hstay |].
  intros es' line v Hparse Hid Htruthy Hreg'.
  set (s := run es' st1).
  assert (Hms : mirrors s) by (now apply mirrors_run).
  assert (Htarget : target v s = Some (Waiter t p))
    by (rewrite (target_by_id v k) by assumption; exact Hreg').
  rewrite (processLine_delivers line v _ s Hparse Htarget).
  destruct (validated_frame v s) as (_ & Hvh & _ & Hvt & Hvp & Hvs & Hvc).
  destruct Hms as (_ & Htimers & Hhandlers).
  destruct (Hhandlers k t p Hreg') as [-> (tm & Htm & _)].
  destruct (Htimers p tm Htm) as [_ Hpair].
  unfold s in Hpair. rewrite Hstay in Hpair. fold s in Hpair.
  unfold call_handler. set (sa := add_call _ _ _).
  assert (Ea : clearTimeout p sa = sa).
  { unfold clearTimeout. cbn [timers sa add_call]. rewrite Hvt, Htm.
    destruct (t_state tm); cbn [paired timeout_error] in Hpair; try contradiction.
    reflexivity. }
  rewrite Ea, settle_other.
  - cbn [calls promises settled timers handlers sa add_call].
    now rewrite Hvc, Hvp, Hvs, Hvt, Hvh.
  - cbn [promises sa add_call]. rewrite Hvp. unfold s. rewrite Hstay. discriminate.
Qed.

Lemma timeout_rejects_and_keeps_waiter_witness :
  let st := run [EvWaitForResponse id3 3000] init in
  let st1 := timer_fires 0 st in
  promises st1 !! 0%nat = Some (timeout_error id3) /\
  handlers st1 = handlers st /\
  handlers st1 !! id3 = Some (Waiter 0 0) /\
  (forall es', promises (run es' st1) !! 0%nat = Some (timeout_error id3)) /\
  (forall es' line v,
      Json.parse line = Some v ->
      get (js "id") v = Some (key_json id3) -> truthy (get (js "id") v) = true ->
      handlers (run es' st1) !! id3 = Some (Waiter 0 0) ->
      let s := run es' st1 in
      let s' := processLine line s in
      calls s' = calls s ++ [(Waiter 0 0, v)] /\
      promises s' = promises s /\ settled s' = settled s /\
      timers s' = timers s /\ handlers s' = handlers s).
Proof.
  apply (timeout_rejects_and_keeps_waiter [EvWaitForResponse id3 3000] id3 0%nat 0%nat 3000);
    vm_compute; reflexivity.
Defined.

(** C8 (as the code has it): completion and timeout exclude each other
    for a call of [waitForResponse], not for a key.  Let a response that
    carries the key as a truthy id arrive while the promise of the waiter
    registered under the key is pending.  The promise is resolved with the
    response and the waiter is called once for it.  Whatever happens
    afterwards the promise has this one outcome, it is never rejected, the
    timer of the call does nothing when it runs out, and no promise has two
    outcomes.  The same response arriving again while the waiter is
    registered calls it again, and that call changes no promise, no
    settlement and no timer. *)
Theorem completion_excludes_timeout
    (es : list Event) (k : Key) (line : jsstring) (v : JSON) (t p : nat)
    (Hparse : Json.parse line = Some v)
    (Hid : get (js "id") v = Some (key_json k))
    (Htruthy : truthy (get (js "id") v) = true)
    (Hreg : handlers (run es init) !! k = Some (Waiter t p))
    (Hpending : promises (run es init) !! p = Some Pending) :
  let st := run es init in
  let st1 := processLine line st in
  (promises st1 !! p = Some (Resolved v) /\ calls st1 = calls st ++ [(Waiter t p, v)]) /\
  (forall es',
      let st' := run es' st1 in
      outcomes p st' = [Resolved v] /\
      promises st' !! p = Some (Resolved v) /\
      (forall message, ~ In (Rejected message) (outcomes p st')) /\
      timer_fires t st' = st' /\
      (forall q, (length (outcomes q st') <= 1)%nat)) /\
  (forall es',
      let s := run es' st1 in
      handlers s !! k = Some (Waiter t p) ->
      let s' := processLine line s in
      calls s' = calls s ++ [(Waiter t p, v)] /\
      promises s' = promises s /\ settled s' = settled s /\ timers s' = timers s).
Proof.
  cbv zeta. set (st := run es init) in *.
  assert (Hm : mirrors st) by (apply mirrors_run, mirrors_init).
  assert (Hc : consistent st) by apply consistent_run.
  assert (Htarget : target v st = Some (Waiter t p))
    by (rewrite (target_by_id v k) by assumption; exact Hreg).
  set (st1 := processLine line st).
  assert (Hm1 : mirrors st1) by (now apply mirrors_processLine).
  assert (Hc1 : consistent st1) by (apply (continues_processLine line st), Hc).
  assert (H1 : promises st1 !! p = Some (Resolved v))
    by (now apply (processLine_resolves line v t)).
  assert (Hstay : forall es', promises (run es' st1) !! p = Some (Resolved v)).
  { intros es'. apply (continues_run es' st1); [exact H1 | discriminate]. }
  assert (Htp : t = p) by (destruct Hm as (_ & _ & Hh); now destruct (Hh k t p Hreg)).
  subst t.
  assert (Hcleared : forall es' tm, timers (run es' st1) !! p = Some tm -> t_state tm = Cleared).
  { intros es' tm Htm. pose proof (mirrors_run es' st1 Hm1) as (_ & Htimers & _).
    destruct (Htimers p tm Htm) as [_ Hpair]. rewrite Hstay in Hpair.
    destruct (t_state tm); cbn [paired] in Hpair; try contradiction. reflexivity. }
  split; [split; [exact H1 | now apply processLine_calls] |]. split.
  - intros es'.
    assert (Hc' : consistent (run es' st1)) by (apply (continues_run es' st1), Hc1).
    assert (Ho : outcomes p (run es' st1) = [Resolved v]) by (now rewrite (Hc' p), Hstay).
    split; [exact Ho |]. split; [apply Hstay |]. split; [| split].
    + intros message. rewrite Ho. intros [E | []]. discriminate E.
    + unfold timer_fires. destruct (timers (run es' st1) !! p) as [tm |] eqn:Htm; [| reflexivity].
      now rewrite (Hcleared es' tm Htm).
    + intros q. rewrite (Hc' q). destruct (promises (run es' st1) !! q) as [[] |]; cbn; lia.
  - intros es' Hreg'. set (s := run es' st1) in *.
    assert (Htarget' : target v s = Some (Waiter p p))
      by (rewrite (target_by_id v k) by assumption; exact Hreg').
    split; [now apply processLine_calls |].
    rewrite (processLine_delivers line v _ s Hparse Htarget').
    destruct (validated_frame v s) as (_ & _ & _ & Hvt & Hvp & Hvs & _).
    unfold call_handler. set (sa := add_call _ _ _).
    assert (Ea : clearTimeout p sa = sa).
    { unfold clearTimeout. cbn [timers sa add_call]. rewrite Hvt.
      destruct (timers s !! p) as [tm |] eqn:Htm; [| reflexivity].
      now rewrite (Hcleared es' tm Htm). }
    rewrite Ea, settle_other.
    + cbn [promises settled timers sa add_call]. now rewrite Hvp, Hvs, Hvt.
    + cbn [promises sa add_call]. rewrite Hvp. unfold s. rewrite Hstay. discriminate.
Qed.

Lemma completion_excludes_timeout_witness :
  let st := run [EvWaitForResponse id3 3000] init in
  let st1 := processLine (Json.stringify ok3) st in
  (promises st1 !! 0%nat = Some (Resolved ok3) /\
   calls st1 = calls st ++ [(Waiter 0 0, ok3)]) /\
  (forall es',
      let st' := run es' st1 in
      outcomes 0 st' = [Resolved ok3] /\
      promises st' !! 0%nat = Some (Resolved ok3) /\
      (forall message, ~ In (Rejected message) (outcomes 0 st')) /\
      timer_fires 0 st' = st' /\
      (forall q, (length (outcomes q st') <= 1)%nat)) /\
  (forall es',
      let s := run es' st1 in
      handlers s !! id3 = Some (Waiter 0 0) ->
      let s' := processLine (Json.stringify ok3) s in
      calls s' = calls s ++ [(Waiter 0 0, ok3)] /\
      promises s' = promises s /\ settled s' = settled s /\ timers s' = timers s).
Proof.
  apply (completion_excludes_timeout [EvWaitForResponse id3 3000] id3
           (Json.stringify ok3) ok3 0%nat 0%nat); vm_compute; reflexivity.
Defined.

(** C8 (as claimed): one key sees both outcomes, the timeout of a first
    call and the completion of a second; and the duplicate of a response
    is given to the waiter a second time. *)
Lemma key_times_out_and_completes :
  let st := run [EvWaitForResponse id3 3000; EvTimer 0%nat; EvWaitForResponse id3 3000;
                 EvData (wire ok3); EvData (wire ok3)] init in
  promises st = [timeout_error id3; Resolved ok3] /\
  map t_key (timers st) = [id3; id3] /\
  map t_state (timers st) = [Fired; Cleared] /\
  calls st = [(Waiter 1 1, ok3); (Waiter 1 1, ok3)].
Proof. vm_compute. repeat split. Qed.

End Waiters.

(** ** What [send] writes *)

Section Sending.
Import Json Client.

Lemma lor_bit7 (h x : N) : N.testbit h 7 = true -> N.lor h x <> 10.
Proof.
  intros H E. assert (B : N.testbit (N.lor h x) 7 = true) by (now rewrite N.lor_spec, H).
  rewrite E in B. discriminate B.
Qed.

Lemma encode1_no_newline (c : N) : c <> 10 -> Forall (fun b => b <> 10) (Utf8.encode1 c).
Proof.
  intros Hc. unfold Utf8.encode1.
  destruct (c <=? 0x7F); [now repeat constructor |].
  destruct (c <=? 0x7FF); [repeat constructor; now apply lor_bit7 |].
  destruct (Utf8.between 0xD800 0xDFFF c || (0x10FFFF <? c)); [repeat constructor; discriminate |].
  destruct (c <=? 0xFFFF); repeat constructor; now apply lor_bit7.
Qed.

Lemma encode_no_newline (s : jsstring) :
  no_newline s = true -> Forall (fun b => b <> 10) (Utf8.encode s).
Proof.
  rewrite no_newline_Forall. intros H. unfold Utf8.encode.
  induction H as [| c s Hc _ IH]; [constructor |].
  cbn [map concat]. apply Forall_app. split; [now apply encode1_no_newline | exact IH].
Qed.

(** X14: what [send] writes for a message is one line: among its bytes
    there is one line feed, the last byte, whatever the message holds. *)
Theorem send_writes_one_line (message : JSON) :
  exists body, wire message = body ++ [10] /\ Forall (fun b => b <> 10) body.
Proof.
  exists (Utf8.encode (Json.stringify message)). split.
  - unfold wire. now rewrite encode_app.
  - apply encode_no_newline, stringify_no_newline.
Qed.

Lemma send_frame (m : JSON) (st : State) :
  let st' := send m st in
  buffer st' = buffer st /\ handlers st' = handlers st /\ timers st' = timers st /\
  promises st' = promises st /\ settled st' = settled st /\ calls st' = calls st /\
  console st' = console st.
Proof. unfold send. destruct (stdin st); repeat split. Qed.

(** X15: messages sent one after the other reach the input of the server
    in that order, each as its line, after what was written before; a
    handler whose server has no input writes nothing.  Sending changes
    nothing else of the handler. *)
Theorem sends_are_written_in_order (msgs : list JSON) (st : State) :
  let st' := run (map EvSend msgs) st in
  stdin st' = option_map (fun written => written ++ concat (map wire msgs)) (stdin st) /\
  buffer st' = buffer st /\ handlers st' = handlers st /\ timers st' = timers st /\
  promises st' = promises st /\ calls st' = calls st /\ console st' = console st.
Proof.
  revert st. induction msgs as [| m msgs IH]; intros st.
  - cbn. repeat split. destruct (stdin st); cbn; [now rewrite app_nil_r | reflexivity].
  - cbn [map run fold_left step]. fold (run (map EvSend msgs) (send m st)).
    destruct (IH (send m st)) as (H1 & H2 & H3 & H4 & H5 & H6 & H7).
    destruct (send_frame m st) as (F2 & F3 & F4 & F5 & _ & F6 & F7).
    cbn zeta. rewrite H1, H2, H3, H4, H5, H6, H7. repeat split; try assumption.
    unfold send. destruct (stdin st) as [w |] eqn:E; cbn; [| now rewrite E].
    unfold wire. now rewrite <- app_assoc.
Qed.

End Sending.

(** ** What [display.tool] prints *)

Section ToolDisplay.
Import Json Client Display DisplayTool.

Lemma firstn_split_at (A : Type) (a n : nat) (l : list A) :
  (a <= n)%nat -> firstn n l = firstn a l ++ firstn (n - a) (skipn a l).
Proof.
  revert n l. induction a as [| a IH]; intros n l Hle.
  - cbn. now rewrite Nat.sub_0_r.
  - destruct n as [| n]; [lia |]. destruct l as [| x l]; [now rewrite !List.firstn_nil |].
    cbn [firstn skipn app Nat.sub]. f_equal. apply IH. lia.
Qed.

(** What [indent.slice(0, -2)] is at a deeper indent. *)
Lemma slice_deeper (indent x : jsstring) :
  exists r, Str.slice_to_end_minus 2 (indent ++ x) = Str.slice_to_end_minus 2 indent ++ r.
Proof.
  unfold Str.slice_to_end_minus. rewrite List.length_app.
  rewrite (firstn_split_at _ (length indent - 2) (length indent + length x - 2)) by lia.
  rewrite List.firstn_app.
  replace (length indent - 2 - length indent)%nat with 0%nat by lia.
  cbn [firstn]. rewrite List.app_nil_r. eauto.
Qed.

Lemma slice_of_indent (indent : jsstring) :
  exists r, indent = Str.slice_to_end_minus 2 indent ++ r.
Proof.
  unfold Str.slice_to_end_minus. exists (skipn (length indent - 2) indent).
  now rewrite List.firstn_skipn.
Qed.

Lemma indented_header (indent label : jsstring) :
  indented indent ((Str.slice_to_end_minus 2 indent ++ js "- ") ++ label).
Proof. exists (js "- " ++ label). now rewrite List.app_assoc. Qed.

Lemma indented_body (indent text : jsstring) : indented indent (indent ++ text).
Proof.
  destruct (slice_of_indent indent) as [r Hr]. exists (r ++ text).
  rewrite List.app_assoc. now rewrite <- Hr.
Qed.

Lemma indented_deeper (indent x line : jsstring) :
  indented (indent ++ x) line -> indented indent line.
Proof.
  intros [rest ->]. destruct (slice_deeper indent x) as [r ->].
  exists (r ++ rest). now rewrite List.app_assoc.
Qed.

Lemma split_no_newline (s : jsstring) : no_newline s = true -> Str.split 10 s = [s].
Proof.
  induction s as [| c s IH]; intros H; [reflexivity |].
  cbn [no_newline forallb] in H. apply andb_prop in H as [Hc Hs].
  apply negb_true_iff in Hc. cbn [Str.split]. rewrite Hc. fold (no_newline s) in Hs.
  now rewrite (IH Hs).
Qed.

Lemma no_newline_app (a b : jsstring) :
  no_newline (a ++ b) = no_newline a && no_newline b.
Proof. apply forallb_app. Qed.

Lemma no_newline_firstn (n : nat) (s : jsstring) :
  no_newline s = true -> no_newline (firstn n s) = true.
Proof.
  rewrite !no_newline_Forall. apply Forall_take.
Qed.

Lemma printed_app (a b : list jsstring) : printed (a ++ b) = printed a ++ printed b.
Proof. unfold printed. now rewrite List.map_app, List.concat_app. Qed.

Lemma printed_one (s : jsstring) : no_newline s = true -> printed [s] = [s].
Proof. intros H. unfold printed. cbn [map concat]. now rewrite split_no_newline, List.app_nil_r. Qed.

Lemma printed_two (a b : jsstring) :
  no_newline a = true -> no_newline b = true -> printed [a ++ [10] ++ b] = [a; b].
Proof.
  intros Ha Hb. unfold printed. cbn [map concat]. rewrite List.app_nil_r.
  rewrite List.app_assoc. change (a ++ [10]) with (nl a).
  now rewrite split_line, split_no_newline.
Qed.

Ltac plain_line :=
  rewrite ?no_newline_app, ?andb_true_iff; repeat split;
  first [assumption | reflexivity | now apply no_newline_firstn].

Lemma indented_weaken (indent x : jsstring) (lines : list jsstring) :
  Forall (indented (indent ++ x)) lines -> Forall (indented indent) lines.
Proof. apply List.Forall_impl. intros line. apply indented_deeper. Qed.

Lemma children_printed (l : list Requirement) (indent x : jsstring) :
  Forall (fun r => plain r = true ->
                   forall i, no_newline i = true ->
                             Forall (indented i) (printed (requirement r i))) l ->
  forallb plain l = true -> no_newline (indent ++ x) = true ->
  Forall (indented indent) (printed (concat (map (fun r => requirement r (indent ++ x)) l))).
Proof.
  intros IH Hplain Hi. induction IH as [| r l Hr _ IH]; [constructor |].
  cbn [forallb map concat] in *. apply andb_prop in Hplain as [Hp Hl].
  rewrite printed_app. apply Forall_app. split; [| now apply IH].
  apply (indented_weaken indent x). now apply Hr.
Qed.

(** The lines printed for a requirement without line feeds. *)
Lemma printed_requirement_indented (req : Requirement) :
  plain req = true ->
  forall indent, no_newline indent = true ->
    Forall (indented indent) (printed (requirement req indent)).
Proof.
  assert (Hhead : forall indent label rest,
             no_newline indent = true -> no_newline label = true ->
             Forall (indented indent) (printed rest) ->
             Forall (indented indent)
                    (printed (((Str.slice_to_end_minus 2 indent ++ js "- ") ++ label) :: rest))).
  { intros indent label rest Hi Hl Hrest.
    change (?x :: rest) with ([x] ++ rest). rewrite printed_app, printed_one.
    - constructor; [apply indented_header | exact Hrest].
    - unfold Str.slice_to_end_minus. plain_line. }
  assert (Hbody : forall indent text,
             no_newline indent = true -> no_newline text = true ->
             Forall (indented indent) (printed [indent ++ text])).
  { intros indent text Hi Ht. rewrite printed_one by plain_line.
    repeat constructor. apply indented_body. }
  assert (Hbody2 : forall indent a b,
             no_newline indent = true -> no_newline a = true -> no_newline b = true ->
             Forall (indented indent) (printed [(indent ++ a) ++ [10] ++ indent ++ b])).
  { intros indent a b Hi Ha Hb. rewrite printed_two by plain_line.
    repeat constructor; apply indented_body. }
  induction req as [name | p | l IH | l IH | r IH] using Requirement_nested_ind;
    intros Hplain indent Hindent; cbn [requirement plain] in *.
  - apply Hhead; [assumption | plain_line | constructor].
  - apply Hhead; [assumption | destruct p; reflexivity |].
    destruct p as [value | name value | uri value | property value];
      cbn [details plain_permission] in *.
    + apply Hbody; [assumption | plain_line].
    + apply andb_prop in Hplain as [Hn Hv].
      replace (indent ++ js "  name: " ++ name ++ [10] ++ indent ++ js "  value: " ++ value)
        with ((indent ++ js "  name: " ++ name) ++ [10] ++ indent ++ js "  value: " ++ value)
        by (now rewrite <- !List.app_assoc).
      apply Hbody2; [assumption | plain_line | plain_line].
    + apply andb_prop in Hplain as [Hn Hv].
      replace (indent ++ js "  uri: " ++ uri ++ [10] ++ indent ++ js "  value: " ++ value)
        with ((indent ++ js "  uri: " ++ uri) ++ [10] ++ indent ++ js "  value: " ++ value)
        by (now rewrite <- !List.app_assoc).
      apply Hbody2; [assumption | plain_line | plain_line].
    + apply andb_prop in Hplain as [Hp Hv]. rewrite printed_app. apply Forall_app. split.
      * destruct property as [prop |]; [| constructor].
        destruct (Str.truthy prop); [| constructor]. apply Hbody; [assumption | plain_line].
      * apply Hbody; [assumption | plain_line].
  - apply Hhead; [assumption | reflexivity |].
    apply children_printed; [exact IH | exact Hplain | plain_line].
  - apply Hhead; [assumption | reflexivity |].
    apply children_printed; [exact IH | exact Hplain | plain_line].
  - apply Hhead; [assumption | reflexivity |].
    apply (indented_weaken indent (js "  ")). apply IH; [exact Hplain | plain_line].
Qed.

Lemma on_stack_prefix (room : nat) (req : Requirement) (indent : jsstring) :
  exists rest, requirement req indent = fst (requirement_on_stack room req indent) ++ rest.
Proof.
  pose proof (requirement_on_stack_ends req room indent) as H. unfold ends in H.
  destruct (snd _).
  - destruct H as [_ ->]. exists []. now rewrite List.app_nil_r.
  - destruct H as [_ (rest & _ & H)]. now exists rest.
Qed.

Lemma forEach_prefix (room : nat) (indent : jsstring) (l : list Requirement) :
  exists rest,
    concat (map (fun r => requirement r indent) l)
    = fst (forEach (fun r => requirement_on_stack room r indent) l) ++ rest.
Proof.
  pose proof (forEach_ends room indent l) as H.
  destruct (snd _).
  - destruct H as [_ ->].
    + apply List.Forall_forall. intros r _. apply requirement_on_stack_ends.
    + exists []. now rewrite List.app_nil_r.
  - destruct H as [_ (rest & _ & H)].
    + apply List.Forall_forall. intros r _. apply requirement_on_stack_ends.
    + now exists rest.
Qed.

Lemma indented_firstn (indent line : jsstring) :
  indented indent line ->
  firstn (length indent - 2) line = firstn (length indent - 2) indent.
Proof.
  intros [rest ->]. unfold Str.slice_to_end_minus.
  rewrite List.firstn_app, List.length_firstn.
  replace (length indent - 2 - Nat.min (length indent - 2) (length indent))%nat
    with 0%nat by lia.
  cbn [firstn]. rewrite List.app_nil_r. apply firstn_all2.
  rewrite List.length_firstn. lia.
Qed.

(** X16: when no string of the requirement and of the indent holds a
    line feed, every line printed for the tree, however deep and whether
    or not the stack holds the recursion, starts with the indent less its
    last two characters: nothing of a subtree is printed to the left of
    the marker of its root. *)
Theorem requirement_lines_are_indented (req : Requirement) (room : nat) (indent : jsstring) :
  plain req = true -> no_newline indent = true ->
  Forall (fun line => firstn (length indent - 2) line = firstn (length indent - 2) indent)
         (printed (fst (requirement_on_stack room req indent))).
Proof.
  intros Hplain Hindent.
  pose proof (printed_requirement_indented req Hplain indent Hindent) as H.
  destruct (on_stack_prefix room req indent) as [rest E].
  rewrite E, printed_app in H. apply Forall_app in H as [H _].
  eapply List.Forall_impl; [| exact H]. intros line. apply indented_firstn.
Qed.

Lemma requirement_lines_are_indented_witness :
  let req := ReqAllOf [ReqPermission (Claim (js "role") (js "admin"));
                       ReqNot (ReqNot (ReqCapability (js "mcp:sampling")))] in
  Forall (fun line => firstn (length default_indent - 2) line
                      = firstn (length default_indent - 2) default_indent)
         (printed (fst (requirement_on_stack 2 req default_indent))).
Proof.
  apply (requirement_lines_are_indented
           (ReqAllOf [ReqPermission (Claim (js "role") (js "admin"));
                      ReqNot (ReqNot (ReqCapability (js "mcp:sampling")))])
           2 default_indent); vm_compute; reflexivity.
Defined.

Lemma nth_app_left (a x : jsstring) (i : nat) :
  (i < length a)%nat -> nth i (a ++ x) 0 = nth i a 0.
Proof. intros H. now apply List.app_nth1. Qed.

Lemma digits_no_newline (n : N) : no_newline (digits n) = true.
Proof.
  apply no_newline_Forall. eapply List.Forall_impl; [| apply uint_chars_digits].
  cbv beta. lia.
Qed.

Lemma digits_first (n : N) (rest : jsstring) : 48 <= nth 0 (digits n ++ rest) 0 <= 57.
Proof.
  pose proof (digits_nonempty n) as Hne. pose proof (uint_chars_digits (N.to_uint n)) as H.
  unfold digits in *. destruct (uint_chars (N.to_uint n)) as [| c cs]; [now destruct Hne |].
  apply List.Forall_inv in H. exact H.
Qed.

Lemma indented_other (line : jsstring) : indented (js "       ") line -> other line.
Proof.
  intros [rest ->]. right. right. left. now rewrite nth_app_left by (vm_compute; lia).
Qed.

Lemma or_default_plain (x : option jsstring) (fallback : jsstring) :
  plain_opt x = true -> no_newline fallback = true -> no_newline (or_default x fallback) = true.
Proof. destruct x as [s |]; cbn; [destruct (Str.truthy s) |]; auto. Qed.

Lemma parameter_other (schema : InputSchema) (entry : jsstring * ParamSchema) :
  no_newline (fst entry) && plain_opt (p_type (snd entry))
  && plain_opt (p_description (snd entry)) = true ->
  Forall other (printed (parameter schema entry)).
Proof.
  destruct entry as [param schemaObj]. cbn [fst snd parameter].
  intros H. apply andb_prop in H as [H Hd]. apply andb_prop in H as [Hp Ht].
  change (?x :: ?xs) with ([x] ++ xs). rewrite printed_app, printed_one.
  - constructor.
    + right. right. left. now rewrite nth_app_left by (vm_compute; lia).
    + destruct (p_description schemaObj) as [d |]; [| constructor].
      destruct (Str.truthy d); [| constructor]. cbn [plain_opt] in Hd.
      rewrite printed_one by plain_line. constructor; [| constructor].
      right. right. left. now rewrite nth_app_left by (vm_compute; lia).
  - assert (Hshow : no_newline (show (p_type schemaObj)) = true)
      by (destruct (p_type schemaObj); [exact Ht | reflexivity]).
    assert (Hreq : no_newline (match required schema with
                               | Some names => if Str.includes names param
                                               then js " (required)" else js " (optional)"
                               | None => js " (optional)"
                               end) = true)
      by (destruct (required schema) as [names |];
          [destruct (Str.includes names param) |]; reflexivity).
    plain_line.
Qed.

Lemma parameters_other (t : Tool) :
  plain_tool t = true ->
  Forall other
    (printed match inputSchema t with
             | Some schema =>
                 match properties schema with
                 | Some entries =>
                     js "   Input Parameters:" :: concat (map (parameter schema) entries)
                 | None => []
                 end
             | None => []
             end).
Proof.
  unfold plain_tool. intros H. apply andb_prop in H as [_ H].
  destruct (inputSchema t) as [schema |]; [| constructor].
  destruct (properties schema) as [entries |]; [| constructor].
  change (?x :: ?xs) with ([x] ++ xs). rewrite printed_app, printed_one by reflexivity.
  constructor; [right; right; right; right; reflexivity |].
  induction entries as [| e es IH]; [constructor |].
  cbn [forallb map concat] in *. apply andb_prop in H as [He Hes].
  rewrite printed_app. apply Forall_app. split; [now apply parameter_other | now apply IH].
Qed.

Lemma head_other (t : Tool) (index : nat) :
  plain_tool t = true ->
  Forall other
    (printed [[10] ++ digits (N.of_nat (index + 1)) ++ js ". Tool: " ++ name t;
              js "   Description: " ++ or_default (description t) (js "No description")]).
Proof.
  unfold plain_tool. intros H. apply andb_prop in H as [H _]. apply andb_prop in H as [H _].
  apply andb_prop in H as [Hn Hd].
  change [?x; ?y] with ([x] ++ [y]). rewrite printed_app.
  replace ([10] ++ digits (N.of_nat (index + 1)) ++ js ". Tool: " ++ name t)
    with ([] ++ [10] ++ digits (N.of_nat (index + 1)) ++ js ". Tool: " ++ name t) by reflexivity.
  rewrite printed_two; [| reflexivity | pose proof (digits_no_newline (N.of_nat (index + 1))); plain_line].
  rewrite printed_one by (pose proof (or_default_plain _ (js "No description") Hd eq_refl);
                           plain_line).
  constructor; [| constructor; [| constructor; [| constructor]]].
  - now left.
  - right. left. apply digits_first.
  - right. right. right. left. now rewrite nth_app_left by (vm_compute; lia).
Qed.

Lemma requirements_other (room : nat) (l : list Requirement) :
  forallb plain l = true ->
  Forall other
    (printed (fst (forEach (fun req => requirement_on_stack room req (js "       ")) l))).
Proof.
  intros Hplain.
  assert (H : Forall (indented (js "       "))
                     (printed (concat (map (fun r => requirement r (js "       ")) l)))).
  { induction l as [| r l IH]; [constructor |].
    cbn [forallb map concat] in *. apply andb_prop in Hplain as [Hr Hl].
    rewrite printed_app. apply Forall_app. split; [| now apply IH].
    now apply printed_requirement_indented. }
  destruct (forEach_prefix room (js "       ") l) as [rest E].
  rewrite E, printed_app in H. apply Forall_app in H as [H _].
  eapply List.Forall_impl; [| exact H]. intros line. apply indented_other.
Qed.

(** X17: when no string of the tool holds a line feed, [display.tool]
    prints one of its two lines about requirements and never both: the
    heading iff the tool has a non-empty [requires], the line saying there
    are none iff it has not; no other line it prints equals either, also
    when the call is ended by a RangeError under [display.requirement]. *)
Theorem tool_requirements_heading (room : nat) (t : Tool) (index : nat) :
  plain_tool t = true ->
  (In (js "   Requirements:") (printed (fst (tool room t index)))
   <-> has_requirements t = true) /\
  (In (js "   Requirements: None (can run in any environment)")
      (printed (fst (tool room t index)))
   <-> has_requirements t = false).
Proof.
  intros Hplain.
  set (heading := js "   Requirements:").
  set (none := js "   Requirements: None (can run in any environment)").
  assert (Hh : ~ other heading)
    by (intros [H | [H | [H | [H | H]]]]; vm_compute in H; try discriminate H;
        destruct H as [H _]; now apply H).
  assert (Hn : ~ other none)
    by (intros [H | [H | [H | [H | H]]]]; vm_compute in H; try discriminate H;
        destruct H as [H _]; now apply H).
  assert (Hne : heading <> none) by (intros H; vm_compute in H; discriminate H).
  assert (Hplain' : match requires t with Some l => forallb plain l | None => true end = true).
  { unfold plain_tool in Hplain. apply andb_prop in Hplain as [Hplain _].
    now apply andb_prop in Hplain as [_ Hplain]. }
  pose proof (head_other t index Hplain) as Hhead.
  pose proof (parameters_other t Hplain) as Hparams.
  assert (Hlines : Forall (fun line => other line \/
                             line = (if has_requirements t then heading else none))
                          (printed (fst (tool room t index))) /\
                   In (if has_requirements t then heading else none)
                      (printed (fst (tool room t index)))).
  { unfold tool. destruct (has_requirements t) eqn:Hhas.
    - assert (Hreqs : Forall other
                        (printed (fst (forEach
                           (fun req => requirement_on_stack room req (js "       "))
                           (match requires t with Some l => l | None => [] end))))).
      { apply requirements_other. destruct (requires t); [exact Hplain' | reflexivity]. }
      destruct (forEach _ _) as [lines exit]. cbn [fst] in Hreqs.
      assert (Hmid : printed (js "   Requirements:" :: lines) = heading :: printed lines).
      { change (?x :: lines) with ([x] ++ lines). now rewrite printed_app, printed_one. }
      destruct exit; cbn [fst]; rewrite !printed_app, Hmid; split.
      + apply Forall_app. split; [eapply List.Forall_impl; [| exact Hhead]; auto |].
        apply Forall_app. split; [| eapply List.Forall_impl; [| exact Hparams]; auto].
        constructor; [now right | eapply List.Forall_impl; [| exact Hreqs]; auto].
      + apply in_or_app. right. apply in_or_app. left. now left.
      + apply Forall_app. split; [eapply List.Forall_impl; [| exact Hhead]; auto |].
        constructor; [now right | eapply List.Forall_impl; [| exact Hreqs]; auto].
      + apply in_or_app. right. now left.
    - cbn [fst]. rewrite !printed_app. split.
      + apply Forall_app. split; [eapply List.Forall_impl; [| exact Hhead]; auto |].
        apply Forall_app. split; [| eapply List.Forall_impl; [| exact Hparams]; auto].
        rewrite printed_one by reflexivity. constructor; [now right | constructor].
      + apply in_or_app. right. apply in_or_app. left.
        rewrite printed_one by reflexivity. now left. }
  destruct Hlines as [Hall Hin]. rewrite List.Forall_forall in Hall.
  split; split.
  - intros H. destruct (Hall _ H) as [Ho | E]; [contradiction |].
    destruct (has_requirements t); [reflexivity | contradiction].
  - intros E. now rewrite E in Hin.
  - intros H. destruct (Hall _ H) as [Ho | E]; [contradiction |].
    destruct (has_requirements t); [| reflexivity]. symmetry in E. contradiction.
  - intros E. now rewrite E in Hin.
Qed.

Lemma tool_requirements_heading_witness :
  let t := mkTool (js "transferFunds") (Some (js "Transfer funds between accounts"))
                  (Some [ReqAllOf [ReqPermission (Scope (js "accounts:read"));
                                   ReqPermission (Scope (js "accounts:write"))]])
                  (Some (mkInput (Some [(js "amount", mkParam (Some (js "number"))
                                                             (Some (js "Amount to transfer")))])
                                 (Some [js "amount"]))) in
  (In (js "   Requirements:") (printed (fst (tool 1 t 2))) <-> has_requirements t = true) /\
  (In (js "   Requirements: None (can run in any environment)") (printed (fst (tool 1 t 2)))
   <-> has_requirements t = false).
Proof.
  apply (tool_requirements_heading 1
           (mkTool (js "transferFunds") (Some (js "Transfer funds between accounts"))
                   (Some [ReqAllOf [ReqPermission (Scope (js "accounts:read"));
                                    ReqPermission (Scope (js "accounts:write"))]])
                   (Some (mkInput (Some [(js "amount", mkParam (Some (js "number"))
                                                              (Some (js "Amount to transfer")))])
                                  (Some [js "amount"])))) 2).
  vm_compute. reflexivity.
Defined.

Lemma has_no_requirements_negb (t : Tool) :
  has_no_requirements t = negb (has_requirements t).
Proof. unfold has_no_requirements, has_requirements. now destruct (requires t) as [[| r l] |]. Qed.

(** X18: the summary of [runRequirementsDemo] counts every tool once: the
    two filters, written differently, are complementary, so the tools
    with requirements and those without add up to the tools found. *)
Theorem summary_partitions_tools (tools : list Tool) :
  let '(total, yes, no) := summary tools in (yes + no = total)%nat.
Proof.
  unfold summary. induction tools as [| t tools IH]; [reflexivity |].
  cbn [filter length]. rewrite has_no_requirements_negb.
  destruct (has_requirements t); cbn [negb length]; lia.
Qed.

End ToolDisplay.

(** ** A session of the OAuth server *)

Section Session.
Import Json OAuthServer OAuthSession.

(** The scopes each callback tests. *)
Lemma call_failed (c : Call) (st : State) :
  failed (fst (call c st)) = negb (forallb (fun s => hasScope s st) (declared_scopes c)).
Proof.
  destruct c as [u | u | f t a | scopes].
  - change (declared_scopes (ReadUserProfile u)) with [js "user:read"].
    cbn [call forallb]. unfold readUserProfile. now destruct (hasScope _ st).
  - change (declared_scopes (DeleteUser u)) with [js "admin:users:delete"].
    cbn [call forallb]. unfold deleteUser. now destruct (hasScope _ st).
  - change (declared_scopes (TransferFunds f t a)) with [js "accounts:read"; js "accounts:write"].
    cbn [call forallb]. unfold transferFunds.
    now destruct (hasScope (js "accounts:read") st), (hasScope _ st).
  - reflexivity.
Qed.

Lemma call_scopes (c : Call) (st : State) :
  currentScopes (snd (call c st)) = last_update [c] (currentScopes st).
Proof.
  destruct c as [u | u | f t a | scopes]; cbn [call last_update].
  - unfold readUserProfile. now destruct (negb _).
  - unfold deleteUser. now destruct (negb _).
  - unfold transferFunds. now destruct (_ || _).
  - reflexivity.
Qed.

Lemma serve_scopes (cs : list Call) :
  forall st, currentScopes (snd (serve cs st)) = last_update cs (currentScopes st).
Proof.
  induction cs as [| c cs IH]; intros st; [reflexivity |].
  cbn [serve]. pose proof (call_scopes c st) as Hc.
  destruct (call c st) as [r st1]. cbn [snd] in Hc.
  specialize (IH st1). destruct (serve cs st1) as [rs st2]. cbn [snd] in *.
  rewrite IH, Hc. now destruct c.
Qed.

(** X19: the test each callback makes is the one its registration
    declares: a call is refused exactly when one of the scope values
    written in the [requires] field of the tool is not among the current
    scopes; [_updateClientScopes], which declares none, is never
    refused. *)
Theorem callbacks_test_the_declared_scopes (c : Call) (st : State) :
  failed (fst (call c st)) = true <->
  exists s, In s (declared_scopes c) /\ ~ In s (currentScopes st).
Proof.
  rewrite call_failed, negb_true_iff. split.
  - intros H. induction (declared_scopes c) as [| s l IH]; [discriminate H |].
    cbn [forallb] in H. destruct (hasScope s st) eqn:E.
    + destruct (IH H) as (s' & Hin & Hnot). exists s'. split; [now right | exact Hnot].
    + exists s. split; [now left |]. intros Hin. apply includes_In in Hin.
      unfold hasScope in E. congruence.
  - intros (s & Hin & Hnot). destruct (forallb _ _) eqn:E; [| reflexivity].
    rewrite forallb_forall in E. specialize (E s Hin).
    unfold hasScope in E. apply includes_In in E. contradiction.
Qed.

(** X20: over any session of calls only [_updateClientScopes] changes the
    scopes, and the last one wins: the scopes after the session are the
    list given to the last update (the initial ones if there was none),
    and a call made then succeeds iff the scopes it tests are all in that
    list, whatever was granted before. *)
Theorem scopes_are_the_last_update (cs : list Call) (c : Call) (st : State) :
  let st' := snd (serve cs st) in
  currentScopes st' = last_update cs (currentScopes st) /\
  (failed (fst (call c st')) = false <->
   forall s, In s (declared_scopes c) -> In s (last_update cs (currentScopes st))).
Proof.
  cbv zeta. split; [apply serve_scopes |].
  rewrite call_failed, negb_false_iff, forallb_forall.
  unfold hasScope. rewrite serve_scopes.
  split; intros Hall s Hs; apply includes_In; now apply Hall.
Qed.

End Session.

(** ** The server processes *)

Section ProcessFacts.
Import Processes.

Lemma kill_unless_killed_once (p : nat) (tbl : list ChildProcess) :
  Forall signalled_once tbl -> Forall signalled_once (kill_unless_killed p tbl).
Proof.
  intros H. unfold kill_unless_killed.
  destruct (tbl !! p) as [proc |] eqn:E; [| exact H].
  destruct (killed proc) eqn:K; [exact H |].
  apply Forall_insert; [exact H |].
  pose proof (Forall_lookup_1 _ _ _ _ H E) as [[_ Hs] | [Hk _]]; [| congruence].
  unfold kill. destruct (running proc); [right | left]; cbn; rewrite ?Hs; auto.
Qed.

Lemma fold_kill_once (ps : list nat) :
  forall tbl, Forall signalled_once tbl ->
              Forall signalled_once (fold_left (fun t p => kill_unless_killed p t) ps tbl).
Proof.
  induction ps as [| p ps IH]; intros tbl H; [exact H |].
  cbn [fold_left]. apply IH. now apply kill_unless_killed_once.
Qed.

Lemma step_once (w : World) (e : Event) :
  Forall signalled_once (table w) -> Forall signalled_once (table (step w e)).
Proof.
  intros H. destruct e as [| h | h | | p]; cbn [step table].
  - exact H.
  - unfold start. destruct (servers w !! h); [| exact H].
    cbn [table]. apply Forall_app. split; [exact H |].
    repeat constructor.
  - unfold handler_kill. destruct (servers w !! h) as [[p |] |]; try exact H.
    cbn [table]. now apply kill_unless_killed_once.
  - unfold cleanup. cbn [table]. now apply fold_kill_once.
  - unfold exits. destruct (table w !! p) as [proc |] eqn:E; [| exact H].
    cbn [table]. apply Forall_insert; [exact H |].
    pose proof (Forall_lookup_1 _ _ _ _ H E) as [[Hk Hs] | [Hk Hs]]; [left | right]; now cbn.
Qed.

(** X21: whatever handlers are constructed, started and killed, however
    often [cleanup] runs and whichever processes exit meanwhile, no
    process is sent a second signal: it has been sent nothing and is not
    flagged [killed], or it has been sent SIGTERM once and is flagged. *)
Theorem no_process_is_signalled_twice (es : list Event) (p : nat) (proc : ChildProcess) :
  table (run es init) !! p = Some proc -> signalled_once proc.
Proof.
  assert (H : forall w, Forall signalled_once (table w) ->
                        Forall signalled_once (table (run es w))).
  { induction es as [| e es IH]; intros w Hw; [exact Hw |].
    cbn [run fold_left]. apply IH. now apply step_once. }
  intros Hp. eapply Forall_lookup_1; [apply (H init) | exact Hp]. constructor.
Qed.

Lemma no_process_is_signalled_twice_witness :
  signalled_once (mkProcess true true [js "SIGTERM"]).
Proof.
  apply (no_process_is_signalled_twice [New; Start 0%nat; Kill 0%nat; Cleanup; Kill 0%nat]
           0%nat (mkProcess true true [js "SIGTERM"])).
  reflexivity.
Defined.

Lemma kill_unless_killed_lookup (p q : nat) (tbl : list ChildProcess) (proc : ChildProcess) :
  tbl !! q = Some proc ->
  exists proc', kill_unless_killed p tbl !! q = Some proc' /\
                running proc' = running proc /\
                (killed proc = true -> killed proc' = true) /\
                (p = q -> running proc = true -> killed proc' = true).
Proof.
  intros Hq. unfold kill_unless_killed.
  destruct (tbl !! p) as [pp |] eqn:E.
  - destruct (killed pp) eqn:K.
    + exists proc. repeat split; auto. intros ->. rewrite E in Hq. injection Hq as <-. auto.
    + destruct (decide (p = q)) as [-> | Hne].
      * rewrite E in Hq. injection Hq as <-.
        exists (kill (js "SIGTERM") pp).
        rewrite list_lookup_insert_eq by (now apply lookup_lt_Some in E).
        unfold kill. destruct (running pp) eqn:R; cbn; repeat split; auto; congruence.
      * exists proc. rewrite list_lookup_insert_ne by assumption.
        repeat split; auto; congruence.
  - exists proc. repeat split; auto; congruence.
Qed.

Lemma fold_kill_lookup (ps : list nat) :
  forall tbl q proc,
    tbl !! q = Some proc ->
    exists proc', fold_left (fun t p => kill_unless_killed p t) ps tbl !! q = Some proc' /\
                  running proc' = running proc /\
                  (killed proc = true -> killed proc' = true) /\
                  (In q ps -> running proc = true -> killed proc' = true).
Proof.
  induction ps as [| p ps IH]; intros tbl q proc Hq.
  - exists proc. repeat split; auto; intros [].
  - cbn [fold_left].
    destruct (kill_unless_killed_lookup p q tbl proc Hq) as (p1 & H1 & Hr1 & Hk1 & Hp1).
    destruct (IH _ q p1 H1) as (p2 & H2 & Hr2 & Hk2 & Hp2).
    exists p2. split; [exact H2 |]. split; [congruence |]. split; [auto |].
    intros [-> | Hin] Hrun.
    + apply Hk2. now apply Hp1.
    + apply Hp2; [exact Hin | congruence].
Qed.

Lemma kill_unless_killed_length (p : nat) (tbl : list ChildProcess) :
  length (kill_unless_killed p tbl) = length tbl.
Proof.
  unfold kill_unless_killed. destruct (tbl !! p) as [proc |]; [| reflexivity].
  destruct (killed proc); [reflexivity | now rewrite length_insert].
Qed.

Lemma step_active (w : World) (e : Event) :
  activeProcesses w = seq 0 (length (table w)) ->
  activeProcesses (step w e) = seq 0 (length (table (step w e))).
Proof.
  intros H. destruct e as [| h | h | | p]; cbn [step].
  - exact H.
  - unfold start. destruct (servers w !! h); [| exact H].
    cbn [table activeProcesses]. rewrite length_app, H. cbn [length].
    now rewrite seq_app.
  - unfold handler_kill. destruct (servers w !! h) as [[p |] |]; try exact H.
    cbn [table activeProcesses]. now rewrite kill_unless_killed_length.
  - unfold cleanup. cbn [table activeProcesses]. rewrite H at 1. f_equal.
    generalize (table w) as tbl. generalize (activeProcesses w) as ps.
    induction ps as [| q ps IH]; intros tbl; [reflexivity |].
    cbn [fold_left]. now rewrite <- IH, kill_unless_killed_length.
  - unfold exits. destruct (table w !! p) as [proc |]; [| exact H].
    cbn [table activeProcesses]. now rewrite length_insert.
Qed.

Lemma run_active (es : list Event) :
  forall w, activeProcesses w = seq 0 (length (table w)) ->
            activeProcesses (run es w) = seq 0 (length (table (run es w))).
Proof.
  induction es as [| e es IH]; intros w H; [exact H |].
  cbn [run fold_left]. apply IH. now apply step_active.
Qed.

(** X22: whatever the handlers did before, [cleanup] reaches every
    spawned process that still runs and flags it [killed]: also the
    process of a handler that was started a second time, which
    [handler.kill()] no longer reaches. *)
Theorem cleanup_reaches_every_running_process
    (es : list Event) (p : nat) (proc : ChildProcess) :
  table (run es init) !! p = Some proc ->
  running proc = true ->
  exists proc', table (cleanup (run es init)) !! p = Some proc' /\ killed proc' = true.
Proof.
  intros Hp Hrun.
  destruct (fold_kill_lookup (activeProcesses (run es init)) (table (run es init)) p proc Hp)
    as (proc' & H & _ & _ & Hk).
  exists proc'. split; [exact H |]. apply Hk; [| exact Hrun].
  rewrite (run_active es init) by reflexivity.
  apply in_seq. apply lookup_lt_Some in Hp. lia.
Qed.

Lemma cleanup_reaches_every_running_process_witness :
  exists proc',
    table (cleanup (run [New; Start 0%nat; Start 0%nat; Kill 0%nat] init)) !! 0%nat = Some proc' /\
    killed proc' = true.
Proof.
  apply (cleanup_reaches_every_running_process [New; Start 0%nat; Start 0%nat; Kill 0%nat] 0%nat
           (mkProcess true false [])); reflexivity.
Defined.

End ProcessFacts.
